(** * Bisa-Me listing editor: the edit modal, its product fetcher and image manager

    A shallow embedding of
    - [EditProductModal] (the modal component: request assembly, the submit
      handler and the render branches),
    - [useFetchProductById] (the product fetcher hook and its [jsonFetcher]),
    - the image manager contract of the design document (its hook is not
      among the sources, so that part is modelled from the document).

    JavaScript values are modelled by the types the TypeScript interfaces
    give them; an optional property is an [option], a thrown exception or a
    rejected promise is the [Throw] case of [Completion]. *)

From Stdlib Require Import DecimalString.
From Stdlib Require DecimalNat DecimalFacts.
From stdpp Require Import base option list strings gmap.

Open Scope string_scope.
Open Scope list_scope.

(** ** JavaScript preliminaries *)

Module Js.

(** An [Error] object: its [name] and its [message]. *)
Record JsError := MkError { err_name : string; err_message : string }.

(** The outcome of a call or of an awaited promise. *)
Inductive Completion (A : Type) :=
| Normal (a : A)
| Throw (e : JsError).
Arguments Normal {A} a.
Arguments Throw {A} e.

Definition is_throw {A} (c : Completion A) : bool :=
  match c with Throw _ => true | Normal _ => false end.

(** Truthiness of a string: only the empty string is falsy. *)
Definition truthy_str (s : string) : bool := negb (String.eqb s "").

(** [a || b] where [a] is an optional string and [b] a string. *)
Definition or_str (a : option string) (b : string) : string :=
  match a with
  | Some s => if truthy_str s then s else b
  | None => b
  end.

(** [a || b] where both sides are optional strings. *)
Definition or_opt (a b : option string) : option string :=
  match a with
  | Some s => if truthy_str s then Some s else b
  | None => b
  end.

(** The template literal [`${n}`] for an array index. *)
Definition show_index (n : nat) : string :=
  NilZero.string_of_uint (Nat.to_uint n).

End Js.
Import Js.

(** ** The modal: data *)

Module Modal.

(** [price?: string | number]. A number is kept as the text of its literal:
    [Number] is applied to it symbolically (see [NumberOf]). *)
Inductive PriceValue :=
| PriceStr (s : string)
| PriceNum (literal : string).

(** [negotiable?: boolean | string]. *)
Inductive NegotiableValue :=
| NegBool (b : bool)
| NegStr (s : string).

(** [childCategory?: string | null]. *)
Inductive ChildCategory :=
| ChildNull
| ChildStr (s : string).

(** A value of the attribute record ([Record<string, any>]). *)
Inductive AttrValue :=
| AttrStr (s : string)
| AttrNum (literal : string)
| AttrBool (b : bool).

(** [interface ProductEditData]: every property is optional. *)
Record ProductEditData := {
  categoryGroup : option string;
  category : option string;
  subCategory : option string;
  childCategory : option ChildCategory;
  title : option string;
  name : option string;
  location : option string;
  attributes : option (gmap string AttrValue);
  description : option string;
  price : option PriceValue;
  negotiable : option NegotiableValue;
  contactNumber : option string
}.

(** [Number(formData.price)], kept symbolic: the request carries the
    coercion applied to the form value. *)
Inductive JsNumber :=
| NumberOf (v : option PriceValue).

Record ImageRef := { imageUrl : string; image_id : string }.

(** [UpdateProductProps], the body handed to [onUpdate]. *)
Record UpdateProductProps := {
  req_id : string;
  req_title : option string;
  req_description : option string;
  req_price : JsNumber;
  req_location : option string;
  req_category : string;
  req_subCategory : string;
  req_childCategory : option string;   (* [None] is [null] *)
  req_contactNumber : string;
  req_images : list ImageRef;
  req_isPromoted : bool;
  req_negotiable : bool;
  req_attributes : gmap string AttrValue
}.

(** [typeof v === "boolean" ? v : v === "true"]. *)
Definition coerce_negotiable (v : option NegotiableValue) : bool :=
  match v with
  | Some (NegBool b) => b
  | Some (NegStr s) => String.eqb s "true"
  | None => false
  end.

(** [formData.childCategory || null]. *)
Definition coerce_childCategory (v : option ChildCategory) : option string :=
  match v with
  | Some (ChildStr s) => if truthy_str s then Some s else None
  | Some ChildNull => None
  | None => None
  end.

(** [imageUrls.map((url, index) => ({ imageUrl: url, id: `image-${index}` }))]. *)
Definition image_refs (imageUrls : list string) : list ImageRef :=
  imap (fun index url =>
          {| imageUrl := url; image_id := "image-" +:+ show_index index |})
       imageUrls.

(** The object literal [reqBody] of [handleSubmit]. *)
Definition build_reqBody (id : string) (formData : ProductEditData)
    (imageUrls : list string) : UpdateProductProps :=
  {| req_id := id;
     req_title := or_opt (title formData) (name formData);
     req_description := description formData;
     req_price := NumberOf (price formData);
     req_location := location formData;
     req_category := or_str (category formData) "";
     req_subCategory := or_str (subCategory formData) "";
     req_childCategory := coerce_childCategory (childCategory formData);
     req_contactNumber := or_str (contactNumber formData) "";
     req_images := image_refs imageUrls;
     req_isPromoted := false;
     req_negotiable := coerce_negotiable (negotiable formData);
     req_attributes := default ∅ (attributes formData) |}.

(** The [value] of the title input:
    [formData.title || formData.name || ""]. *)
Definition title_input_value (formData : ProductEditData) : string :=
  or_str (or_opt (title formData) (name formData)) "".

(** *** The submit handler

    [handleSubmit] is an [async] function with one suspension point, the
    [await onUpdate(reqBody)].  [handleSubmit_begin] is the part that runs
    up to that point, [handleSubmit_resume] the part that runs when the
    awaited call settles; [handleSubmit] composes the two with the outcome
    the update collaborator gives.  Each call the handler makes is logged
    as an [Event], in program order. *)

Inductive Event :=
| EvPreventDefault
| EvSetIsSubmitting (b : bool)
| EvGetImageUrls
| EvUploadImages
| EvOnUpdate (reqBody : UpdateProductProps)
| EvSetShowSuccess (b : bool)
| EvToastSuccess (msg : string)
| EvToastError (msg : string)
| EvConsoleError (label : string) (e : JsError)
| EvSetTimeout (ms : nat)
| EvOnCancel.

Section Submit.

(** The state the image manager hook owns; its hook is a collaborator of
    the modal, so its representation is left open here. *)
Context {Images : Type}.

(** What the handler closes over: the state of the component instance.
    [pending] counts the [onUpdate] calls that have not settled yet and
    [timers] the scheduled close callbacks. *)
Record ModalState := {
  formData : option ProductEditData;
  isSubmitting : bool;
  showSuccess : bool;
  images : Images;
  pending : nat;
  timers : nat
}.

(** The collaborators in scope of the component: [getImageUrls] of the
    image manager, the [uploadImages] of [useImageUpload] (handed to the
    image manager as [onUpload]) and the [onUpdate] prop. *)
Record Collaborators := {
  getImageUrls : Images -> Completion (list string);
  uploadImages : Images -> Completion (list string);
  onUpdate : UpdateProductProps -> Completion unit
}.

Definition setIsSubmitting (b : bool) (s : ModalState) : ModalState :=
  {| formData := formData s; isSubmitting := b;
     showSuccess := showSuccess s; images := images s;
     pending := pending s; timers := timers s |}.

Definition setShowSuccess (b : bool) (s : ModalState) : ModalState :=
  {| formData := formData s; isSubmitting := isSubmitting s;
     showSuccess := b; images := images s;
     pending := pending s; timers := timers s |}.

Definition set_pending (n : nat) (s : ModalState) : ModalState :=
  {| formData := formData s; isSubmitting := isSubmitting s;
     showSuccess := showSuccess s; images := images s;
     pending := n; timers := timers s |}.

Definition set_timers (n : nat) (s : ModalState) : ModalState :=
  {| formData := formData s; isSubmitting := isSubmitting s;
     showSuccess := showSuccess s; images := images s;
     pending := pending s; timers := n |}.

Definition setFormData (fd : option ProductEditData) (s : ModalState)
    : ModalState :=
  {| formData := fd; isSubmitting := isSubmitting s;
     showSuccess := showSuccess s; images := images s;
     pending := pending s; timers := timers s |}.

Definition setImages (i : Images) (s : ModalState) : ModalState :=
  {| formData := formData s; isSubmitting := isSubmitting s;
     showSuccess := showSuccess s; images := i;
     pending := pending s; timers := timers s |}.

(** The [catch] block followed by the [finally] block. *)
Definition catch_finally (e : JsError) (s : ModalState)
    : ModalState * list Event :=
  (setIsSubmitting false s,
   [EvConsoleError "Update error:" e;
    EvToastError "Failed to update product.";
    EvSetIsSubmitting false]).

(** From the entry of [handleSubmit] to its [await] (or to its end when
    it returns early or throws before the [await]).  The third component
    is the request being awaited, if any. *)
Definition handleSubmit_begin (env : Collaborators) (id : string)
    (s : ModalState)
    : ModalState * list Event * option UpdateProductProps :=
  match formData s with
  | None => (s, [EvPreventDefault], None)
  | Some fd =>
      if isSubmitting s then (s, [EvPreventDefault], None)
      else
        let s1 := setIsSubmitting true s in
        match getImageUrls env (images s) with
        | Throw e =>
            let '(s2, t) := catch_finally e s1 in
            (s2, [EvPreventDefault; EvSetIsSubmitting true; EvGetImageUrls]
                   ++ t, None)
        | Normal imageUrls =>
            let reqBody := build_reqBody id fd imageUrls in
            (set_pending (S (pending s1)) s1,
             [EvPreventDefault; EvSetIsSubmitting true; EvGetImageUrls;
              EvOnUpdate reqBody],
             Some reqBody)
        end
  end.

(** From the settling of the awaited [onUpdate] to the end of the
    handler. *)
Definition handleSubmit_resume (outcome : Completion unit)
    (s : ModalState) : ModalState * list Event :=
  let s0 := set_pending (Nat.pred (pending s)) s in
  match outcome with
  | Normal _ =>
      (setIsSubmitting false
         (set_timers (S (timers s0)) (setShowSuccess true s0)),
       [EvSetShowSuccess true;
        EvToastSuccess "Product updated successfully!";
        EvSetTimeout 1200;
        EvSetIsSubmitting false])
  | Throw e => catch_finally e s0
  end.

(** The callback given to [setTimeout]. *)
Definition close_timer (s : ModalState) : ModalState * list Event :=
  (set_timers (Nat.pred (timers s)) (setShowSuccess false s),
   [EvSetShowSuccess false; EvOnCancel]).

(** One whole run of [handleSubmit], the awaited call settling as the
    update collaborator decides. *)
Definition handleSubmit (env : Collaborators) (id : string)
    (s : ModalState) : ModalState * list Event :=
  let '(s1, t1, awaited) := handleSubmit_begin env id s in
  match awaited with
  | None => (s1, t1)
  | Some reqBody =>
      let '(s2, t2) := handleSubmit_resume (onUpdate env reqBody) s1 in
      (s2, t1 ++ t2)
  end.

(** *** The life of one modal instance

    The handlers a render creates close over the state of that render:
    [handleSubmit] tests the [formData] and the [isSubmitting] it was
    created with, and [getImageUrls] reads the image list of that render.
    A write ([setIsSubmitting], [setShowSuccess]) changes the state the
    next render will see, not what the handlers already created read.  An
    instance is therefore the state as written so far, [current], and the
    state the handlers of the latest render closed over, [closure]. *)
Record ModalInstance := {
  current : ModalState;
  closure : ModalState
}.

(** The instance right after a render of the state [s]. *)
Definition rendered (s : ModalState) : ModalInstance :=
  {| current := s; closure := s |}.

(** What can happen to an instance: the form is submitted, an awaited
    update settles, a close timer fires, the user edits a field, the image
    manager changes its list, the component renders again. *)
Inductive Action :=
| ActSubmit
| ActSettle (outcome : Completion unit)
| ActTimer
| ActEdit (fd : ProductEditData)
| ActImages (i : Images)
| ActRender.

(** The write a logged call makes to the state of the instance. *)
Definition apply_event (s : ModalState) (ev : Event) : ModalState :=
  match ev with
  | EvSetIsSubmitting b => setIsSubmitting b s
  | EvSetShowSuccess b => setShowSuccess b s
  | EvOnUpdate _ => set_pending (S (pending s)) s
  | EvSetTimeout _ => set_timers (S (timers s)) s
  | _ => s
  end.

(** The writes of a handler, replayed in order on a state. *)
Definition commit (tr : list Event) (s : ModalState) : ModalState :=
  foldl apply_event s tr.

(** One event.  A submit runs [handleSubmit] as the latest render created
    it: what it reads is the closure, what it writes goes to the current
    state.  The continuation after the [await] and the timer callback read
    no state; they only write. *)
Definition step (env : Collaborators) (id : string) (inst : ModalInstance)
    (a : Action) : ModalInstance :=
  match a with
  | ActSubmit =>
      {| current :=
           commit (handleSubmit_begin env id (closure inst)).1.2
                  (current inst);
         closure := closure inst |}
  | ActSettle outcome =>
      match pending (current inst) with
      | O => inst
      | S _ =>
          {| current := (handleSubmit_resume outcome (current inst)).1;
             closure := closure inst |}
      end
  | ActTimer =>
      match timers (current inst) with
      | O => inst
      | S _ =>
          {| current := (close_timer (current inst)).1;
             closure := closure inst |}
      end
  | ActEdit fd =>
      match formData (closure inst) with
      | None => inst
      | Some _ =>
          {| current := setFormData (Some fd) (current inst);
             closure := closure inst |}
      end
  | ActImages i =>
      {| current := setImages i (current inst); closure := closure inst |}
  | ActRender => rendered (current inst)
  end.

Definition run (env : Collaborators) (id : string) (inst : ModalInstance)
    (acts : list Action) : ModalInstance :=
  foldl (step env id) inst acts.

(** Every submit of the sequence is handled by a render made after the
    submit before it; [fresh] tells whether that holds of the instance the
    sequence starts from. *)
Fixpoint rendered_between (fresh : bool) (acts : list Action) : bool :=
  match acts with
  | [] => true
  | ActSubmit :: rest => fresh && rendered_between false rest
  | ActRender :: rest => rendered_between true rest
  | _ :: rest => rendered_between fresh rest
  end.

(** A freshly mounted instance: both [useState(false)]. *)
Definition mounted (fd : option ProductEditData) (i : Images)
    : ModalState :=
  {| formData := fd; isSubmitting := false; showSuccess := false;
     images := i; pending := 0; timers := 0 |}.

Definition is_update (ev : Event) : bool :=
  match ev with EvOnUpdate _ => true | _ => false end.

Definition is_upload (ev : Event) : bool :=
  match ev with EvUploadImages => true | _ => false end.

(** What holds of an instance when every submit is handled by a fresh
    render: either one update is awaited and the instance is marked as
    submitting, or none is and it is not; and handlers created after the
    last submit that see [isSubmitting] false see it with no update
    awaited. *)
Definition in_step (fresh : bool) (inst : ModalInstance) : Prop :=
  ((isSubmitting (current inst) = true ∧ pending (current inst) = 1%nat)
   ∨ (isSubmitting (current inst) = false ∧ pending (current inst) = 0%nat))
  ∧ (fresh = true → isSubmitting (closure inst) = false →
     pending (current inst) = 0%nat).

(** The ordering the design document states for the submit flow: every
    update request in a trace has the upload before it. *)
Definition upload_precedes_update (tr : list Event) : Prop :=
  ∀ pre reqBody post,
    tr = pre ++ EvOnUpdate reqBody :: post → EvUploadImages ∈ pre.

End Submit.
Arguments ModalInstance : clear implicits.
Arguments ModalState : clear implicits.
Arguments Collaborators : clear implicits.
Arguments Action : clear implicits.

(** *** The render branches *)

(** A load error is typed [unknown]: an [Error] object or some text. *)
Inductive ErrorValue :=
| ErrObject (e : JsError)
| ErrText (s : string).

Definition truthy_error (v : option ErrorValue) : bool :=
  match v with
  | Some (ErrObject _) => true
  | Some (ErrText s) => truthy_str s
  | None => false
  end.

(** [String(loadError)]: [Error.prototype.toString] for an error object. *)
Definition string_of_error (v : ErrorValue) : string :=
  match v with
  | ErrText s => s
  | ErrObject e =>
      if String.eqb (err_name e) "" then err_message e
      else if String.eqb (err_message e) "" then err_name e
      else err_name e +:+ ": " +:+ err_message e
  end.

Inductive SubmitLabel :=
| LabelUploading
| LabelUpdating
| LabelSuccess
| LabelUpdateProduct.

Inductive View :=
| Hidden
| LoadingPanel
| ErrorPanel (heading detail : string)
| EditForm (titleValue : string) (controlsDisabled : bool)
           (label : SubmitLabel).

Section Render.

(** The [Product] type of the component's props. *)
Context {Product : Type}.

(** The props the render branches read, and what the hooks returned in
    this render. *)
Record RenderInput := {
  isOpen : bool;
  product : option Product;
  externalLoading : option bool;
  externalError : option ErrorValue;
  newProductData : option Product;
  isLoadingProduct : bool;
  errorProduct : option ErrorValue;
  r_formData : option ProductEditData;
  r_isSubmitting : bool;
  r_isUploading : bool;
  r_showSuccess : bool
}.

(** [externalLoading ?? isLoadingProduct]. *)
Definition isLoading (i : RenderInput) : bool :=
  default (isLoadingProduct i) (externalLoading i).

(** [externalError ?? errorProduct]. *)
Definition loadError (i : RenderInput) : option ErrorValue :=
  match externalError i with
  | Some v => Some v
  | None => errorProduct i
  end.

(** [newProductData || product]. *)
Definition productData (i : RenderInput) : option Product :=
  match newProductData i with
  | Some p => Some p
  | None => product i
  end.

Definition submit_label (i : RenderInput) : SubmitLabel :=
  if r_isSubmitting i || r_isUploading i then
    if r_isUploading i then LabelUploading else LabelUpdating
  else if r_showSuccess i then LabelSuccess
  else LabelUpdateProduct.

Definition error_panel (i : RenderInput) : View :=
  match loadError i with
  | Some v =>
      if truthy_error (Some v)
      then ErrorPanel "Failed to load product" (string_of_error v)
      else ErrorPanel "Product not found"
             "Unable to load product data. Please try again."
  | None =>
      ErrorPanel "Product not found"
        "Unable to load product data. Please try again."
  end.

(** What the component returns. *)
Definition render (i : RenderInput) : View :=
  if negb (isOpen i) then Hidden
  else if isLoading i then LoadingPanel
  else
    match productData i, r_formData i with
    | Some _, Some fd =>
        EditForm (title_input_value fd)
                 (r_isSubmitting i || r_isUploading i)
                 (submit_label i)
    | _, _ => error_panel i
    end.

Definition is_error_panel (v : View) : bool :=
  match v with ErrorPanel _ _ => true | _ => false end.

End Render.
Arguments RenderInput : clear implicits.

End Modal.

(** ** The product fetcher *)

Module Fetcher.

(** A decoded JSON value. *)
#[local] Unset Elimination Schemes.
Inductive Json :=
| JNull
| JBool (b : bool)
| JNum (z : Z)
| JStr (s : string)
| JArr (items : list Json)
| JObj (fields : list (string * Json)).
#[local] Set Elimination Schemes.

(** A [Response]: what its [json()] method settles to. *)
Record Response := { json : Completion Json }.

(** What the imported [fetcher] resolves to (it is typed [any]): nothing,
    an already decoded value, or a [Response]. *)
Inductive FetchResult :=
| ResUndefined
| ResValue (v : Json)
| ResResponse (r : Response).

Definition truthy (res : FetchResult) : bool :=
  match res with
  | ResUndefined => false
  | ResValue JNull => false
  | ResValue (JBool b) => b
  | ResValue (JNum z) => negb (Z.eqb z 0)
  | ResValue (JStr s) => truthy_str s
  | ResValue (JArr _) => true
  | ResValue (JObj _) => true
  | ResResponse _ => true
  end.

Definition no_response : JsError :=
  MkError "Error" "No response from server".

(** [jsonFetcher]: the two casts [as ListingDetailsResponse<T>] are erased
    at run time, so the value is returned as it is. *)
Definition jsonFetcher (fetcher : string -> Completion FetchResult)
    (url : string) : Completion Json :=
  match fetcher url with
  | Throw e => Throw e
  | Normal res =>
      if negb (truthy res) then Throw no_response
      else
        match res with
        | ResResponse r => json r
        | ResValue v => Normal v
        | ResUndefined => Throw no_response
        end
  end.

Fixpoint lookup_field (k : string) (fields : list (string * Json))
    : option Json :=
  match fields with
  | [] => None
  | (k', v) :: rest =>
      if String.eqb k k' then Some v else lookup_field k rest
  end.

(** The type [ListingDetailsResponse]: an object with a [data] property,
    a [message] that is a string when present and a [success] that is a
    boolean when present. *)
Definition is_envelope (v : Json) : bool :=
  match v with
  | JObj fields =>
      match lookup_field "data" fields with
      | None => false
      | Some _ =>
          match lookup_field "message" fields with
          | None | Some (JStr _) =>
              match lookup_field "success" fields with
              | None | Some (JBool _) => true
              | Some _ => false
              end
          | Some _ => false
          end
      end
  | _ => false
  end.

(** [productData?.data]. *)
Definition data_of (productData : option Json) : option Json :=
  match productData with
  | Some (JObj fields) => lookup_field "data" fields
  | _ => None
  end.

(** *** The hook and the requests it causes

    [useSWR] belongs to a library.  Of its behaviour the model keeps this:
    a [null] key fetches nothing; a key that is new to the instance (on
    mount or after a change) is revalidated by [useSWR] itself, at once
    and before the effects of the component when the cache holds no data
    for the key, and after them when it does; such a revalidation starts
    no request of its own when one for the key was started within the
    deduplication interval, it joins that one; the bound [mutate()] called
    with no argument always starts a request for the current key and does
    nothing for a [null] key; focus and reconnect revalidation are
    switched off by the options the hook passes.  A revalidation fetches the key with [jsonFetcher];
    the trace of an instance lists the fetches it starts, in order. *)

Inductive Revalidation :=
| ByKey (url : string)        (* started by [useSWR] for a new key *)
| ByRefresh (url : string).   (* started by [refresh()] *)

(** [enabled && productId ? `/api/listing-details?id=${productId}` : null]. *)
Definition apiUrl (productId : string) (enabled : bool) : option string :=
  if enabled && truthy_str productId
  then Some ("/api/listing-details?id=" +:+ productId)
  else None.

(** [refresh()], the bound [mutate] of the current key. *)
Definition refresh (key : option string) : list Revalidation :=
  match key with
  | Some url => [ByRefresh url]
  | None => []
  end.

(** What an instance remembers from its previous render: the key it gave
    to [useSWR] and the dependencies of its effect.  [None] before the
    first render. *)
Record Instance := {
  last_key : option (option string);
  last_deps : option (string * bool)
}.

Definition unmounted : Instance :=
  {| last_key := None; last_deps := None |}.

(** What the cache of [useSWR] holds when a render happens: the keys it
    has data for, and the keys a request was started for within the
    deduplication interval. *)
Record SwrCache := {
  with_data : gset string;
  recent : gset string
}.

(** Nothing fetched yet. *)
Definition cold : SwrCache := {| with_data := ∅; recent := ∅ |}.

(** The cache has data or a recent request for the key. *)
Definition known (cached : SwrCache) (url : string) : bool :=
  bool_decide (url ∈ with_data cached) || bool_decide (url ∈ recent cached).

(** The revalidation [useSWR] itself plans for the key of a render. *)
Inductive OwnRevalidation :=
| NoRevalidation
| AtOnce (url : string)       (* no data, no recent request *)
| Joined (url : string)       (* no data, joins the recent request *)
| Deferred (url : string).    (* data: after the effects *)

Definition swr_on_render (prev : option (option string))
    (key : option string) (cached : SwrCache) : OwnRevalidation :=
  match key with
  | None => NoRevalidation
  | Some url =>
      if bool_decide (prev = Some key) then NoRevalidation
      else if bool_decide (url ∈ with_data cached) then Deferred url
      else if bool_decide (url ∈ recent cached) then Joined url
      else AtOnce url
  end.

(** The body of the [useEffect], run when a dependency changed. *)
Definition effect_on_render (prev : option (string * bool))
    (productId : string) (enabled : bool) (key : option string)
    : list Revalidation :=
  if bool_decide (prev = Some (productId, enabled)) then []
  else if truthy_str productId && enabled then refresh key
  else [].

(** One render of [useFetchProductById(productId, enabled)] followed by
    its effects, with the fetches it starts: a revalidation [useSWR] makes
    at once, then what the effect starts, then a deferred revalidation
    unless a request for the key has just been started. *)
Definition useFetchProductById (productId : string) (enabled : bool)
    (cached : SwrCache) (inst : Instance)
    : Instance * list Revalidation :=
  let key := apiUrl productId enabled in
  let effect := effect_on_render (last_deps inst) productId enabled key in
  ({| last_key := Some key; last_deps := Some (productId, enabled) |},
   match swr_on_render (last_key inst) key cached with
   | NoRevalidation => effect
   | AtOnce url => ByKey url :: effect
   | Joined url => effect
   | Deferred url =>
       match effect with
       | [] => if bool_decide (url ∈ recent cached) then [] else [ByKey url]
       | _ => effect
       end
   end).

(** The returned [refetch]. *)
Definition refetch (productId : string) (enabled : bool)
    : list Revalidation :=
  if enabled then refresh (apiUrl productId enabled) else [].

(** An instance that has rendered remembers the key of the props it
    rendered with. *)
Definition coherent (inst : Instance) : Prop :=
  last_key inst = (fun d => apiUrl d.1 d.2) <$> last_deps inst.

(** The cache once the listing "p1" has been fetched. *)
Definition p1_cached : SwrCache :=
  {| with_data := {["/api/listing-details?id=p1"]}; recent := ∅ |}.

(** The cache once "p1" and "p2" have been fetched. *)
Definition p1_p2_cached : SwrCache :=
  {| with_data := {["/api/listing-details?id=p1"]}
                  ∪ {["/api/listing-details?id=p2"]};
     recent := ∅ |}.

(** The cache while the first request for "p1" has not resolved. *)
Definition p1_requested : SwrCache :=
  {| with_data := ∅; recent := {["/api/listing-details?id=p1"]} |}.

(** A server answer that is JSON but not the envelope. *)
Definition not_found_body : Json := JObj [("error", JStr "not found")].

Definition answers_not_found (url : string) : Completion FetchResult :=
  Normal (ResResponse {| json := Normal not_found_body |}).

End Fetcher.

(** ** The image manager

    The hook [useImageManager] is imported by the modal but is not among the
    sources; the definitions of this module follow the contract the design
    document gives for it. *)

Module ImageManager.

Definition maxImages : nat := 10.
Definition maxFileSizeMB : N := 5.

(** A local file: its name and its size in bytes. *)
Record File := { file_name : string; file_size : N }.

Inductive UploadStatus := Pending | Uploading | Uploaded | Failed.

(** Modelled from the spec: the image entry of the data model, "a tagged
    union of existing remote reference (URL, stable id) and pending local
    file (binary payload, preview handle, upload status)"; the hook's own
    type is not among the sources.  [final_url] is the URL an uploaded
    entry was promoted with. *)
Inductive EntryKind :=
| Existing (url : string)
| Local (file : File) (preview : string) (status : UploadStatus)
        (final_url : option string).

Record ImageEntry := {
  entry_id : nat;
  kind : EntryKind;
  position : nat
}.

Definition set_position (p : nat) (e : ImageEntry) : ImageEntry :=
  {| entry_id := entry_id e; kind := kind e; position := p |}.

Definition set_kind (k : EntryKind) (e : ImageEntry) : ImageEntry :=
  {| entry_id := entry_id e; kind := k; position := position e |}.

Definition has_id (id : nat) (e : ImageEntry) : bool :=
  Nat.eqb (entry_id e) id.

Definition find_entry (id : nat) (l : list ImageEntry) : option ImageEntry :=
  List.find (has_id id) l.

(** The "is main" flag is derived: position 0. *)
Definition is_main (e : ImageEntry) : bool := Nat.eqb (position e) 0.

Definition fresh_id (l : list ImageEntry) : nat :=
  S (foldr Nat.max 0 (entry_id <$> l)).

Definition too_large (f : File) : bool :=
  N.ltb (maxFileSizeMB * 1024 * 1024) (file_size f).

(** Modelled from the spec: [addFiles] of the absent hook
    [useImageManager]; it "rejects (reports an error, does
    not throw) any file exceeding [maxFileSizeMB] or if adding it would
    exceed [maxImages] total entries; accepted files become pending
    entries appended at the end".  The result is the updated list with the
    errors reported, one per rejected file. *)
Fixpoint addFiles (files : list File) (l : list ImageEntry)
    : list ImageEntry * list string :=
  match files with
  | [] => (l, [])
  | f :: rest =>
      if too_large f then
        let '(l', errs) := addFiles rest l in
        (l', ("File too large: " +:+ file_name f) :: errs)
      else if Nat.ltb maxImages (S (length l)) then
        let '(l', errs) := addFiles rest l in
        (l', ("Too many images: " +:+ file_name f) :: errs)
      else
        addFiles rest
          (l ++ [{| entry_id := fresh_id l;
                    kind := Local f ("blob:" +:+ file_name f) Pending None;
                    position := length l |}])
  end.

Fixpoint delete_first (id : nat) (l : list ImageEntry) : list ImageEntry :=
  match l with
  | [] => []
  | e :: rest => if has_id id e then rest else e :: delete_first id rest
  end.

(** Modelled from the spec: [remove] of the absent hook
    [useImageManager]; it "deletes the entry; if the removed
    entry was main (position 0), the new first remaining entry becomes
    main automatically": every entry behind the removed one moves one
    position forward. *)
Definition remove (id : nat) (l : list ImageEntry) : list ImageEntry :=
  match find_entry id l with
  | None => l
  | Some gone =>
      (fun e => if Nat.ltb (position gone) (position e)
                then set_position (Nat.pred (position e)) e
                else e) <$> delete_first id l
  end.

(** Where the entry at position [q] goes when the entry at position [from]
    is moved to position [to]: the entries between the two shift by one
    slot, the others stay. *)
Definition moved (from to q : nat) : nat :=
  if Nat.eqb q from then to
  else if Nat.ltb from q && Nat.leb q to then Nat.pred q
  else if Nat.leb to q && Nat.ltb q from then S q
  else q.

(** Modelled from the spec: [reorder(sourceId, targetPosition)] of the
    absent hook [useImageManager]; it "moves one
    entry to a new position; all entries between old and new position
    shift by one slot".  A target position outside the list, or an unknown
    source, leaves the list as it is. *)
Definition reorder (sourceId : nat) (targetPosition : nat)
    (l : list ImageEntry) : list ImageEntry :=
  match find_entry sourceId l with
  | None => l
  | Some src =>
      if Nat.ltb targetPosition (length l) then
        (fun e => set_position (moved (position src) targetPosition
                                      (position e)) e) <$> l
      else l
  end.

(** Modelled from the spec: [setMain] of the absent hook
    [useImageManager]; it "moves the designated entry to
    position 0, shifting others back by one, preserving relative order of
    the rest". *)
Definition setMain (id : nat) (l : list ImageEntry) : list ImageEntry :=
  match find_entry id l with
  | None => l
  | Some src =>
      (fun e => if Nat.eqb (position e) (position src)
                then set_position 0 e
                else if Nat.ltb (position e) (position src)
                     then set_position (S (position e)) e
                     else e) <$> l
  end.

Inductive Operation :=
| AddFiles (files : list File)
| Remove (id : nat)
| Reorder (sourceId : nat) (targetPosition : nat)
| SetMain (id : nat).

Definition apply (l : list ImageEntry) (op : Operation) : list ImageEntry :=
  match op with
  | AddFiles files => (addFiles files l).1
  | Remove id => remove id l
  | Reorder sourceId targetPosition => reorder sourceId targetPosition l
  | SetMain id => setMain id l
  end.

Definition positions (l : list ImageEntry) : list nat := position <$> l.

(** Unique, gap-free, zero-based positions: the positions are the numbers
    [0 .. length - 1], each taken once. *)
Definition well_positioned (l : list ImageEntry) : Prop :=
  positions l ≡ₚ seq 0 (length l).

Definition valid (l : list ImageEntry) : Prop :=
  well_positioned l ∧ (length l ≤ maxImages)%nat.

(** The entry at a position, and the list read in position order. *)
Definition entry_at (l : list ImageEntry) (p : nat) : option ImageEntry :=
  List.find (fun e => Nat.eqb (position e) p) l.

Definition in_order (l : list ImageEntry) : list ImageEntry :=
  omap (entry_at l) (seq 0 (length l)).

Definition is_pending (e : ImageEntry) : bool :=
  match kind e with
  | Local _ _ Pending _ => true
  | _ => false
  end.

Definition is_uploaded (e : ImageEntry) : bool :=
  match kind e with
  | Local _ _ Uploaded (Some _) => true
  | _ => false
  end.

Definition entry_url (e : ImageEntry) : string :=
  match kind e with
  | Existing url => url
  | Local _ _ _ (Some url) => url
  | Local _ preview _ None => preview
  end.

(** Modelled from the spec: [getImageUrls] of the absent hook
    [useImageManager], a "pure read of current entry URLs in position
    order". *)
Definition getImageUrls (l : list ImageEntry) : list string :=
  entry_url <$> in_order l.

(** The upload of one entry: a pending entry goes through the upload
    collaborator and is promoted on success; any other entry is kept. *)
Definition upload_entry (upload : File -> Completion string)
    (e : ImageEntry) : Completion ImageEntry :=
  match kind e with
  | Local f preview Pending _ =>
      match upload f with
      | Normal url => Normal (set_kind (Local f preview Uploaded (Some url)) e)
      | Throw err => Throw err
      end
  | _ => Normal e
  end.

(** The upload collaborator rejects the file of this pending entry. *)
Definition upload_fails (upload : File -> Completion string)
    (e : ImageEntry) : bool :=
  match kind e with
  | Local f _ Pending _ => is_throw (upload f)
  | _ => false
  end.

(** How an entry looks after a batch that succeeded: a pending entry is
    uploaded, with the URL the upload collaborator gave for its file; any
    other entry is as it was. *)
Definition promoted (upload : File -> Completion string)
    (e e' : ImageEntry) : Prop :=
  entry_id e' = entry_id e ∧ position e' = position e ∧
  match kind e with
  | Local f preview Pending _ =>
      ∃ url, upload f = Normal url
             ∧ kind e' = Local f preview Uploaded (Some url)
  | _ => e' = e
  end.

(** The URL the caller is to get for an entry of the list the batch
    started from. *)
Definition url_after (upload : File -> Completion string)
    (e : ImageEntry) (url : string) : Prop :=
  match kind e with
  | Local f _ Pending _ => upload f = Normal url
  | _ => url = entry_url e
  end.

Fixpoint upload_all (upload : File -> Completion string)
    (l : list ImageEntry) : Completion (list ImageEntry) :=
  match l with
  | [] => Normal []
  | e :: rest =>
      match upload_entry upload e, upload_all upload rest with
      | Normal e', Normal rest' => Normal (e' :: rest')
      | Throw err, _ => Throw err
      | _, Throw err => Throw err
      end
  end.

(** Modelled from the spec: [beginUpload] of the absent hook
    [useImageManager]; "for every pending entry, it
    invokes the external upload collaborator; resolves only once all
    pending entries have either succeeded (producing a final URL, entry
    status uploaded) or the whole operation fails; on any single failure,
    the entire batch is reported as failed (no partial-success state is
    surfaced to the caller) and no URLs are returned".  The result is the
    outcome given to the caller and the list the manager holds after. *)
Definition beginUpload (upload : File -> Completion string)
    (l : list ImageEntry) : Completion (list string) * list ImageEntry :=
  match upload_all upload l with
  | Normal l' => (Normal (getImageUrls l'), l')
  | Throw err => (Throw err, l)
  end.

(** *** Sample data *)

Definition photo (n : string) : File :=
  {| file_name := n; file_size := 1024 |}.

Definition huge : File :=
  {| file_name := "huge.png"; file_size := 6 * 1024 * 1024 |}.

(** A listing with two hosted images. *)
Definition gallery : list ImageEntry :=
  [ {| entry_id := 1; kind := Existing "a.jpg"; position := 0 |};
    {| entry_id := 2; kind := Existing "b.jpg"; position := 1 |} ].

(** The same after two local files were added. *)
Definition edited : list ImageEntry :=
  (addFiles [photo "c.png"; photo "d.png"] gallery).1.

Definition hosted (f : File) : Completion string :=
  Normal ("https://cdn/" +:+ file_name f).

(** The edited list with the first local file made the main image. *)
Definition rearranged : list ImageEntry := setMain 3 edited.

(** An upload collaborator that rejects [d.png] only. *)
Definition flaky (f : File) : Completion string :=
  if String.eqb (file_name f) "d.png"
  then Throw (MkError "Error" "upload failed")
  else hosted f.

End ImageManager.

(** ** Sample data *)

Module Sample.
Import Modal.

Definition with_title_name (t n : option string) : ProductEditData :=
  {| categoryGroup := None; category := None; subCategory := None;
     childCategory := None; title := t; name := n;
     location := None; attributes := None; description := None;
     price := None; negotiable := None; contactNumber := None |}.

Definition with_negotiable (v : option NegotiableValue) : ProductEditData :=
  {| categoryGroup := None; category := None; subCategory := None;
     childCategory := None; title := Some "Lamp"; name := None;
     location := None; attributes := None; description := None;
     price := Some (PriceNum "20"); negotiable := v;
     contactNumber := None |}.

(** The listing of the scenario: [{title: "Lamp", price: 20}]. *)
Definition lamp : ProductEditData := with_negotiable None.

(** An image manager reduced to the URLs it would return. *)
Definition ready (fd : ProductEditData) (urls : list string)
    : ModalState (list string) :=
  mounted (Some fd) urls.

(** Collaborators: the URLs are read off the state, the upload and the
    update settle as given. *)
Definition collaborators (upload : Completion (list string))
    (update : Completion unit) : Collaborators (list string) :=
  {| getImageUrls := fun urls => Normal urls;
     uploadImages := fun _ => upload;
     onUpdate := fun _ => update |}.

Definition rejected : JsError := MkError "Error" "rejected".

(** Collaborators whose image manager throws when its URLs are read. *)
Definition unreadable : Collaborators (list string) :=
  {| getImageUrls := fun _ => Throw rejected;
     uploadImages := fun _ => Normal [];
     onUpdate := fun _ => Normal () |}.

(** The fetch failed with an error, a fallback product was supplied as a
    prop; [form] is what the form hook returned in this render. *)
Definition fetch_failed_with_fallback (form : option ProductEditData)
    : RenderInput ProductEditData :=
  {| isOpen := true; product := Some lamp;
     externalLoading := None; externalError := None;
     newProductData := None; isLoadingProduct := false;
     errorProduct := Some (ErrObject (MkError "Error" "Request failed"));
     r_formData := form; r_isSubmitting := false;
     r_isUploading := false; r_showSuccess := false |}.

(** One existing image and one local file that was never uploaded. *)
Definition two_urls : list string := ["a.jpg"; "blob:b.jpg"].

End Sample.

(** ** The modal across events *)

Module Session.
Import Modal.

(** An optional string that is absent or empty: falsy either way. *)
Definition blank_str (a : option string) : Prop := a = None ∨ a = Some "".

Section Log.
Context {Images : Type}.

(** What one event of an instance's life logs: the calls of the handler
    part that runs for it. *)
Definition step_events (env : Collaborators Images) (id : string)
    (inst : ModalInstance Images) (a : Action Images) : list Event :=
  match a with
  | ActSubmit => (handleSubmit_begin env id (closure inst)).1.2
  | ActSettle outcome =>
      match pending (current inst) with
      | O => []
      | S _ => (handleSubmit_resume outcome (current inst)).2
      end
  | ActTimer =>
      match timers (current inst) with
      | O => []
      | S _ => (close_timer (current inst)).2
      end
  | ActEdit _ => []
  | ActImages _ => []
  | ActRender => []
  end.

(** The log of a sequence of events, each handled in the instance the
    previous ones left. *)
Fixpoint run_log (env : Collaborators Images) (id : string)
    (inst : ModalInstance Images) (acts : list (Action Images))
    : list Event :=
  match acts with
  | [] => []
  | a :: rest =>
      step_events env id inst a ++ run_log env id (step env id inst a) rest
  end.

Definition is_cancel (ev : Event) : bool :=
  match ev with EvOnCancel => true | _ => false end.

Definition is_success (ev : Event) : bool :=
  match ev with EvToastSuccess _ => true | _ => false end.

Definition is_error_toast (ev : Event) : bool :=
  match ev with EvToastError _ => true | _ => false end.

Definition count (p : Event → bool) (tr : list Event) : nat :=
  length (List.filter p tr).

End Log.

Section View.
Context {Product Images : Type}.

(** The render of an instance: the props and the other hooks as in [i],
    the form data and the two flags as the instance state has them. *)
Definition view (i : RenderInput Product) (s : ModalState Images) : View :=
  render {| isOpen := isOpen i; product := product i;
            externalLoading := externalLoading i;
            externalError := externalError i;
            newProductData := newProductData i;
            isLoadingProduct := isLoadingProduct i;
            errorProduct := errorProduct i;
            r_formData := formData s;
            r_isSubmitting := isSubmitting s;
            r_isUploading := r_isUploading i;
            r_showSuccess := showSuccess s |}.

(** The same render with other values returned by the fetch hook. *)
Definition with_fetch (data : option Product) (loading : bool)
    (error : option ErrorValue) (i : RenderInput Product)
    : RenderInput Product :=
  {| isOpen := isOpen i; product := product i;
     externalLoading := externalLoading i;
     externalError := externalError i;
     newProductData := data;
     isLoadingProduct := loading;
     errorProduct := error;
     r_formData := r_formData i;
     r_isSubmitting := r_isSubmitting i;
     r_isUploading := r_isUploading i;
     r_showSuccess := r_showSuccess i |}.

End View.

End Session.

(** ** The fetcher across renders *)

Module FetcherSession.
Import Fetcher.

Definition url_of (r : Revalidation) : string :=
  match r with ByKey u => u | ByRefresh u => u end.

(** The fetches of successive renders of one instance, each with its own
    [(productId, enabled)] and the keys cached when it happens. *)
Fixpoint renders (props : list (string * bool * SwrCache))
    (inst : Instance) : list Revalidation :=
  match props with
  | [] => []
  | (productId, enabled, cached) :: rest =>
      (useFetchProductById productId enabled cached inst).2
        ++ renders rest (useFetchProductById productId enabled cached inst).1
  end.


(** What the hook returns once the request of [useSWR] has settled:
    [newProductData] is [productData?.data] of the resolved value and
    [errorProduct] the rejection. *)
Definition settled (outcome : Completion Json)
    : option Json * option JsError :=
  match outcome with
  | Normal v => (data_of (Some v), None)
  | Throw e => (None, Some e)
  end.

End FetcherSession.

(** ** Request assembly *)

Section RequestFacts.
Import Modal.
Context {Images : Type}.
Implicit Types (env : Collaborators Images) (s : ModalState Images).

(** The scenario of the design document: the two URLs of the image
    manager become [image-0] and [image-1]. *)
Example image_refs_scenario :
  image_refs ["a.jpg"; "b.jpg"]
  = [ {| imageUrl := "a.jpg"; image_id := "image-0" |};
      {| imageUrl := "b.jpg"; image_id := "image-1" |} ].
Proof. reflexivity. Qed.

Lemma image_refs_length (urls : list string) :
  length (image_refs urls) = length urls.
Proof. unfold image_refs. apply length_imap. Qed.

(** When the handler reaches its [await], it was entered with form data,
    not submitting, the URLs were read, and the request is the one built
    from them. *)
Lemma handleSubmit_begin_awaited env id s s1 t reqBody :
  handleSubmit_begin env id s = (s1, t, Some reqBody) →
  ∃ fd imageUrls,
    formData s = Some fd ∧ isSubmitting s = false ∧
    getImageUrls env (images s) = Normal imageUrls ∧
    reqBody = build_reqBody id fd imageUrls ∧
    s1 = set_pending (S (pending s)) (setIsSubmitting true s) ∧
    t = [EvPreventDefault; EvSetIsSubmitting true; EvGetImageUrls;
         EvOnUpdate reqBody].
Proof.
  unfold handleSubmit_begin.
  destruct (formData s) as [fd|] eqn:Hfd; [|discriminate].
  destruct (isSubmitting s) eqn:Hsub; [discriminate|].
  destruct (getImageUrls env (images s)) as [urls|e] eqn:Hurls;
    simpl; intros H; inversion H; subst.
  exists fd, urls. repeat split; reflexivity.
Qed.

Lemma handleSubmit_begin_ready env id s fd imageUrls :
  formData s = Some fd → isSubmitting s = false →
  getImageUrls env (images s) = Normal imageUrls →
  handleSubmit_begin env id s
  = (set_pending (S (pending s)) (setIsSubmitting true s),
     [EvPreventDefault; EvSetIsSubmitting true; EvGetImageUrls;
      EvOnUpdate (build_reqBody id fd imageUrls)],
     Some (build_reqBody id fd imageUrls)).
Proof.
  intros Hfd Hsub Hurls. unfold handleSubmit_begin.
  rewrite Hfd, Hsub, Hurls. reflexivity.
Qed.

Lemma handleSubmit_begin_throw env id s fd e :
  formData s = Some fd → isSubmitting s = false →
  getImageUrls env (images s) = Throw e →
  handleSubmit_begin env id s
  = (setIsSubmitting false (setIsSubmitting true s),
     [EvPreventDefault; EvSetIsSubmitting true; EvGetImageUrls;
      EvConsoleError "Update error:" e;
      EvToastError "Failed to update product.";
      EvSetIsSubmitting false],
     None).
Proof.
  intros Hfd Hsub Hurls. unfold handleSubmit_begin.
  rewrite Hfd, Hsub, Hurls. reflexivity.
Qed.

Lemma handleSubmit_begin_ignored env id s :
  formData s = None ∨ isSubmitting s = true →
  handleSubmit_begin env id s = (s, [EvPreventDefault], None).
Proof.
  intros H. unfold handleSubmit_begin.
  destruct (formData s); [|reflexivity].
  destruct H as [H|H]; [discriminate|]. rewrite H. reflexivity.
Qed.

End RequestFacts.

Section Negotiable.
Import Modal.
Context {Images : Type}.
Implicit Types (env : Collaborators Images) (s : ModalState Images).

(** C3. In the request [handleSubmit] assembles and hands to [onUpdate],
    [negotiable] is the form value itself when that is a boolean, [true]
    when it is the string "true", and [false] for every other string
    ("false" included). *)
Theorem negotiable_of_request env id s s1 t reqBody fd :
  handleSubmit_begin env id s = (s1, t, Some reqBody) →
  formData s = Some fd →
  (∀ b, negotiable fd = Some (NegBool b) → req_negotiable reqBody = b) ∧
  (negotiable fd = Some (NegStr "true") → req_negotiable reqBody = true) ∧
  (∀ str, str ≠ "true" → negotiable fd = Some (NegStr str) →
          req_negotiable reqBody = false).
Proof.
  intros Hbegin Hfd.
  destruct (handleSubmit_begin_awaited _ _ _ _ _ _ Hbegin)
    as (fd' & urls & Hfd' & _ & _ & -> & _ & _).
  rewrite Hfd in Hfd'. injection Hfd' as <-.
  cbn [build_reqBody req_negotiable].
  split; [|split].
  - intros b ->. reflexivity.
  - intros ->. reflexivity.
  - intros str Hne ->. cbn [coerce_negotiable].
    apply String.eqb_neq. exact Hne.
Qed.

End Negotiable.

Lemma negotiable_of_request_witness :
  Modal.req_negotiable
    (Modal.build_reqBody "p1"
       (Sample.with_negotiable (Some (Modal.NegBool true))) ["a.jpg"]) = true
  ∧ Modal.req_negotiable
      (Modal.build_reqBody "p1"
         (Sample.with_negotiable (Some (Modal.NegStr "true"))) ["a.jpg"]) = true
  ∧ Modal.req_negotiable
      (Modal.build_reqBody "p1"
         (Sample.with_negotiable (Some (Modal.NegStr "false"))) ["a.jpg"]) = false.
Proof.
  pose (env := Sample.collaborators (Normal []) (Normal ())).
  split; [|split].
  - apply (proj1 (negotiable_of_request env "p1"
             (Sample.ready (Sample.with_negotiable (Some (Modal.NegBool true)))
                           ["a.jpg"])
             _ _ _ _ eq_refl eq_refl) true).
    reflexivity.
  - apply (proj1 (proj2 (negotiable_of_request env "p1"
             (Sample.ready (Sample.with_negotiable (Some (Modal.NegStr "true")))
                           ["a.jpg"])
             _ _ _ _ eq_refl eq_refl))).
    reflexivity.
  - apply (proj2 (proj2 (negotiable_of_request env "p1"
             (Sample.ready (Sample.with_negotiable (Some (Modal.NegStr "false")))
                           ["a.jpg"])
             _ _ _ _ eq_refl eq_refl)) "false").
    + discriminate.
    + reflexivity.
Defined.

Section TitleFallback.
Import Modal.
Context {Images : Type}.
Implicit Types (env : Collaborators Images) (s : ModalState Images).

(** C7. When the form data seeded from a listing has no [title] but a
    legacy [name], the title input shows that name, and the request
    [handleSubmit] assembles carries it as its [title]. *)
Theorem title_falls_back_to_name (fd : ProductEditData) (legacy : string) :
  title fd = None → name fd = Some legacy →
  title_input_value fd = legacy ∧
  ∀ env id s s1 t reqBody,
    formData s = Some fd →
    handleSubmit_begin env id s = (s1, t, Some reqBody) →
    req_title reqBody = Some legacy.
Proof.
  intros Htitle Hname. split.
  - unfold title_input_value, or_opt, or_str. rewrite Htitle, Hname.
    destruct (truthy_str legacy) eqn:Ht; [reflexivity|].
    unfold truthy_str in Ht. apply negb_false_iff, String.eqb_eq in Ht.
    symmetry. exact Ht.
  - intros env id s s1 t reqBody Hfd Hbegin.
    destruct (handleSubmit_begin_awaited _ _ _ _ _ _ Hbegin)
      as (fd' & urls & Hfd' & _ & _ & -> & _ & _).
    rewrite Hfd in Hfd'. injection Hfd' as <-.
    cbn [build_reqBody req_title]. unfold or_opt.
    rewrite Htitle. exact Hname.
Qed.

End TitleFallback.

Lemma title_falls_back_to_name_witness :
  Modal.title_input_value (Sample.with_title_name None (Some "Chair")) = "Chair"
  ∧ Modal.req_title
      (Modal.build_reqBody "p1" (Sample.with_title_name None (Some "Chair"))
         ["a.jpg"]) = Some "Chair".
Proof.
  pose proof (@title_falls_back_to_name (list string)
                (Sample.with_title_name None (Some "Chair")) "Chair"
                eq_refl eq_refl) as [Hinput Hrequest].
  split; [exact Hinput|].
  apply (Hrequest (Sample.collaborators (Normal []) (Normal ())) "p1"
           (Sample.ready (Sample.with_title_name None (Some "Chair"))
                         ["a.jpg"])
           _ _ _ eq_refl eq_refl).
Defined.

(** ** The submit flow *)

Section SubmitFlow.
Import Modal.
Context {Images : Type}.
Implicit Types (env : Collaborators Images) (s : ModalState Images).

(** The traces a run of [handleSubmit] can have. *)
Lemma handleSubmit_cases env id s :
  (handleSubmit env id s = (s, [EvPreventDefault]) ∧
   (formData s = None ∨ isSubmitting s = true))
  ∨ (∃ fd e,
       formData s = Some fd ∧ isSubmitting s = false ∧
       getImageUrls env (images s) = Throw e ∧
       handleSubmit env id s
       = (setIsSubmitting false (setIsSubmitting true s),
          [EvPreventDefault; EvSetIsSubmitting true; EvGetImageUrls;
           EvConsoleError "Update error:" e;
           EvToastError "Failed to update product.";
           EvSetIsSubmitting false]))
  ∨ (∃ fd imageUrls,
       formData s = Some fd ∧ isSubmitting s = false ∧
       getImageUrls env (images s) = Normal imageUrls ∧
       let reqBody := build_reqBody id fd imageUrls in
       let s1 := set_pending (S (pending s)) (setIsSubmitting true s) in
       handleSubmit env id s
       = ((handleSubmit_resume (onUpdate env reqBody) s1).1,
          [EvPreventDefault; EvSetIsSubmitting true; EvGetImageUrls;
           EvOnUpdate reqBody]
            ++ (handleSubmit_resume (onUpdate env reqBody) s1).2)).
Proof.
  destruct (formData s) as [fd|] eqn:Hfd.
  - destruct (isSubmitting s) eqn:Hsub.
    + left. split; [|right; reflexivity].
      unfold handleSubmit.
      rewrite (handleSubmit_begin_ignored env id s) by (right; exact Hsub).
      reflexivity.
    + right. destruct (getImageUrls env (images s)) as [urls|e] eqn:Hurls.
      * right. exists fd, urls. repeat split.
        cbv zeta. unfold handleSubmit.
        rewrite (handleSubmit_begin_ready env id s fd urls Hfd Hsub Hurls).
        destruct (handleSubmit_resume _ _). reflexivity.
      * left. exists fd, e. repeat split.
        unfold handleSubmit.
        rewrite (handleSubmit_begin_throw env id s fd e Hfd Hsub Hurls).
        reflexivity.
  - left. split; [|left; reflexivity].
    unfold handleSubmit.
    rewrite (handleSubmit_begin_ignored env id s) by (left; exact Hfd).
    reflexivity.
Qed.

Lemma resume_has_no_upload outcome s :
  existsb is_upload (handleSubmit_resume outcome s).2 = false ∧
  existsb is_update (handleSubmit_resume outcome s).2 = false.
Proof. destruct outcome; split; reflexivity. Qed.

Lemma update_in_trace (pre post : list Event) reqBody :
  existsb is_update (pre ++ EvOnUpdate reqBody :: post) = true.
Proof. rewrite existsb_app. cbn. apply orb_true_r. Qed.

(** C1 (amended). The submit flow runs no upload phase: [handleSubmit]
    never calls the upload collaborator; it reads the image manager's
    current URLs with [getImageUrls], and an update request it sends is
    the one built from exactly the URLs read just before.  If reading the
    URLs throws, the error "Failed to update product." is reported,
    [isSubmitting] is back to [false] and the update collaborator is not
    invoked. *)
Theorem submit_reads_urls_without_upload env id s :
  existsb is_upload (handleSubmit env id s).2 = false ∧
  (∀ pre reqBody post,
      (handleSubmit env id s).2 = pre ++ EvOnUpdate reqBody :: post →
      ∃ fd imageUrls,
        formData s = Some fd ∧
        getImageUrls env (images s) = Normal imageUrls ∧
        reqBody = build_reqBody id fd imageUrls ∧
        pre = [EvPreventDefault; EvSetIsSubmitting true; EvGetImageUrls]) ∧
  (∀ fd e,
      formData s = Some fd → isSubmitting s = false →
      getImageUrls env (images s) = Throw e →
      EvToastError "Failed to update product." ∈ (handleSubmit env id s).2 ∧
      isSubmitting (handleSubmit env id s).1 = false ∧
      existsb is_update (handleSubmit env id s).2 = false).
Proof.
  destruct (handleSubmit_cases env id s)
    as [[Hrun Hc] | [(fd & e & Hfd & Hsub & Hurls & Hrun)
                   | (fd & urls & Hfd & Hsub & Hurls & Hrun)]];
    cbv zeta in Hrun; rewrite Hrun; cbn [fst snd].
  - split; [reflexivity|]. split.
    + intros pre reqBody post Heq.
      pose proof (update_in_trace pre post reqBody) as Hin.
      rewrite <- Heq in Hin. discriminate.
    + intros fd e Hfd Hsub Hurls. destruct Hc; congruence.
  - split; [reflexivity|]. split.
    + intros pre reqBody post Heq.
      pose proof (update_in_trace pre post reqBody) as Hin.
      rewrite <- Heq in Hin. discriminate.
    + intros _ _ _ _ _. split; [|split; reflexivity].
      set_solver.
  - destruct (resume_has_no_upload (onUpdate env (build_reqBody id fd urls))
                (set_pending (S (pending s)) (setIsSubmitting true s)))
      as [Hup Hupd].
    split; [cbn [app existsb is_upload]; exact Hup|]. split.
    + intros pre reqBody post Heq.
      exists fd, urls. split; [exact Hfd|]. split; [exact Hurls|].
      destruct pre as [|e0 [|e1 [|e2 [|e3 pre]]]];
        cbn [app] in Heq; try discriminate.
      * injection Heq as <- <- <- <- _. split; reflexivity.
      * exfalso. injection Heq as _ _ _ _ Heq.
        pose proof (update_in_trace pre post reqBody) as Hin.
        rewrite <- Heq in Hin. congruence.
    + intros fd' e _ _ Hthrow. congruence.
Qed.

End SubmitFlow.

(** The scenario of the design document: the listing "Lamp" with the URLs
    "a.jpg" and "b.jpg" is submitted and the update resolves.  [onUpdate]
    is called once, with the two image references; the success flag is set
    and the close callback is scheduled after 1200 ms. *)
Example submit_scenario :
  (Modal.handleSubmit (Sample.collaborators (Normal []) (Normal ())) "p1"
     (Sample.ready Sample.lamp ["a.jpg"; "b.jpg"])).2
  = [Modal.EvPreventDefault; Modal.EvSetIsSubmitting true;
     Modal.EvGetImageUrls;
     Modal.EvOnUpdate (Modal.build_reqBody "p1" Sample.lamp ["a.jpg"; "b.jpg"]);
     Modal.EvSetShowSuccess true;
     Modal.EvToastSuccess "Product updated successfully!";
     Modal.EvSetTimeout 1200; Modal.EvSetIsSubmitting false]
  ∧ Modal.req_images (Modal.build_reqBody "p1" Sample.lamp ["a.jpg"; "b.jpg"])
    = [ {| Modal.imageUrl := "a.jpg"; Modal.image_id := "image-0" |};
        {| Modal.imageUrl := "b.jpg"; Modal.image_id := "image-1" |} ]
  ∧ (Modal.close_timer
       (Modal.handleSubmit (Sample.collaborators (Normal []) (Normal ())) "p1"
          (Sample.ready Sample.lamp ["a.jpg"; "b.jpg"])).1).2
    = [Modal.EvSetShowSuccess false; Modal.EvOnCancel].
Proof. repeat split. Qed.

Lemma submit_reads_urls_without_upload_witness :
  Modal.EvToastError "Failed to update product."
    ∈ (Modal.handleSubmit Sample.unreadable "p1"
         (Sample.ready Sample.lamp Sample.two_urls)).2
  ∧ Modal.isSubmitting
      (Modal.handleSubmit Sample.unreadable "p1"
         (Sample.ready Sample.lamp Sample.two_urls)).1 = false
  ∧ existsb Modal.is_update
      (Modal.handleSubmit Sample.unreadable "p1"
         (Sample.ready Sample.lamp Sample.two_urls)).2 = false.
Proof.
  apply (proj2 (proj2 (submit_reads_urls_without_upload Sample.unreadable "p1"
                         (Sample.ready Sample.lamp Sample.two_urls)))
           Sample.lamp Sample.rejected);
    reflexivity.
Defined.

(** C1, as stated, fails: with one image that is still a local file and an
    upload collaborator that would reject, the run of [handleSubmit] sends
    the update request, built from both URLs, without any upload before it
    and without reporting an upload error. *)
Lemma submit_upload_phase_counterexample :
  is_throw (Modal.uploadImages
              (Sample.collaborators (Throw Sample.rejected) (Normal ()))
              Sample.two_urls) = true
  ∧ (Modal.handleSubmit
       (Sample.collaborators (Throw Sample.rejected) (Normal ())) "p1"
       (Sample.ready Sample.lamp Sample.two_urls)).2
    = [Modal.EvPreventDefault; Modal.EvSetIsSubmitting true;
       Modal.EvGetImageUrls;
       Modal.EvOnUpdate
         (Modal.build_reqBody "p1" Sample.lamp Sample.two_urls);
       Modal.EvSetShowSuccess true;
       Modal.EvToastSuccess "Product updated successfully!";
       Modal.EvSetTimeout 1200; Modal.EvSetIsSubmitting false]
  ∧ ¬ Modal.upload_precedes_update
        (Modal.handleSubmit
           (Sample.collaborators (Throw Sample.rejected) (Normal ())) "p1"
           (Sample.ready Sample.lamp Sample.two_urls)).2.
Proof.
  split; [reflexivity|]. split; [reflexivity|].
  intros Hclaim.
  specialize (Hclaim
    [Modal.EvPreventDefault; Modal.EvSetIsSubmitting true;
     Modal.EvGetImageUrls]
    (Modal.build_reqBody "p1" Sample.lamp Sample.two_urls)
    [Modal.EvSetShowSuccess true;
     Modal.EvToastSuccess "Product updated successfully!";
     Modal.EvSetTimeout 1200; Modal.EvSetIsSubmitting false]
    eq_refl).
  apply list_elem_of_In in Hclaim. cbn in Hclaim.
  destruct Hclaim as [H|[H|[H|[]]]]; discriminate.
Qed.

Section Reentrancy.
Import Modal.
Context {Images : Type}.
Implicit Types (env : Collaborators Images) (s : ModalState Images)
  (inst : ModalInstance Images).

(** Replayed on the state the handler read, the writes of
    [handleSubmit_begin] give the state the handler itself computes. *)
Lemma commit_begin env id s :
  commit (handleSubmit_begin env id s).1.2 s = (handleSubmit_begin env id s).1.1.
Proof.
  unfold handleSubmit_begin.
  destruct (formData s); [|reflexivity].
  destruct (isSubmitting s); [reflexivity|].
  destruct (getImageUrls env (images s)); reflexivity.
Qed.

Lemma step_rendered env id s :
  current (step env id (rendered s) ActSubmit)
  = (handleSubmit_begin env id s).1.1.
Proof. cbn. apply commit_begin. Qed.

Lemma in_step_mounted fd (i : Images) : in_step true (rendered (mounted fd i)).
Proof. split; [right; split; reflexivity | reflexivity]. Qed.

Lemma in_step_submit env id inst :
  in_step true inst → in_step false (step env id inst ActSubmit).
Proof.
  intros [Hsync Hfresh]. split; [|discriminate]. cbn [step current].
  destruct (formData (closure inst)) as [fd|] eqn:Hfd.
  - destruct (isSubmitting (closure inst)) eqn:Hsub.
    + rewrite (handleSubmit_begin_ignored env id (closure inst))
        by (right; exact Hsub).
      exact Hsync.
    + specialize (Hfresh eq_refl eq_refl).
      destruct (getImageUrls env (images (closure inst))) as [urls|e] eqn:Hurls.
      * rewrite (handleSubmit_begin_ready env id _ fd urls Hfd Hsub Hurls).
        left. cbn. rewrite Hfresh. split; reflexivity.
      * rewrite (handleSubmit_begin_throw env id _ fd e Hfd Hsub Hurls).
        right. cbn. split; [reflexivity|exact Hfresh].
  - rewrite (handleSubmit_begin_ignored env id (closure inst))
      by (left; exact Hfd).
    exact Hsync.
Qed.

Lemma in_step_other env id inst a fresh :
  a ≠ ActSubmit → a ≠ ActRender →
  in_step fresh inst → in_step fresh (step env id inst a).
Proof.
  intros Hsubmit Hrender Hin.
  destruct a as [|outcome| |fd|i|]; try contradiction; cbn [step].
  - destruct (pending (current inst)) as [|n] eqn:Hp; [exact Hin|].
    destruct Hin as [[[_ H]|[_ H]] _]; [|congruence].
    split; [right|intros _ _];
      destruct outcome; cbn; rewrite H; repeat split.
  - destruct (timers (current inst)); exact Hin.
  - destruct (formData (closure inst)); exact Hin.
  - exact Hin.
Qed.

Lemma in_step_render env id inst fresh :
  in_step fresh inst → in_step true (step env id inst ActRender).
Proof.
  intros [Hsync _]. split; [exact Hsync|]. cbn. intros _ Hidle.
  destruct Hsync as [[H _]|[_ H]]; [congruence|exact H].
Qed.

Lemma in_step_run env id acts inst fresh :
  in_step fresh inst → rendered_between fresh acts = true →
  ∃ fresh', in_step fresh' (run env id inst acts).
Proof.
  revert inst fresh. induction acts as [|a acts IH]; intros inst fresh Hin Hok.
  - exists fresh. exact Hin.
  - cbn [run foldl].
    destruct a as [|outcome| |fd|i|]; cbn [rendered_between] in Hok.
    + apply andb_true_iff in Hok as [-> Hok].
      exact (IH _ false (in_step_submit env id inst Hin) Hok).
    + refine (IH _ fresh (in_step_other env id inst _ fresh _ _ Hin) Hok);
        discriminate.
    + refine (IH _ fresh (in_step_other env id inst _ fresh _ _ Hin) Hok);
        discriminate.
    + refine (IH _ fresh (in_step_other env id inst _ fresh _ _ Hin) Hok);
        discriminate.
    + refine (IH _ fresh (in_step_other env id inst _ fresh _ _ Hin) Hok);
        discriminate.
    + exact (IH _ true (in_step_render env id inst fresh Hin) Hok).
Qed.


End Reentrancy.



Section FailedUpdate.
Import Modal.
Context {Images : Type}.
Implicit Types (env : Collaborators Images) (s : ModalState Images).

(** C5. When the update collaborator rejects the request, the run of
    [handleSubmit] reports "Failed to update product.", ends with
    [isSubmitting] false, leaves the form data and the image state as
    they were, does not touch the success flag (so none is shown when
    none was), schedules no close timer and does not call [onCancel]. *)
Theorem rejected_update_keeps_form env id s fd imageUrls e :
  formData s = Some fd → isSubmitting s = false →
  getImageUrls env (images s) = Normal imageUrls →
  onUpdate env (build_reqBody id fd imageUrls) = Throw e →
  (handleSubmit env id s).2
  = [EvPreventDefault; EvSetIsSubmitting true; EvGetImageUrls;
     EvOnUpdate (build_reqBody id fd imageUrls);
     EvConsoleError "Update error:" e;
     EvToastError "Failed to update product.";
     EvSetIsSubmitting false] ∧
  formData (handleSubmit env id s).1 = Some fd ∧
  images (handleSubmit env id s).1 = images s ∧
  isSubmitting (handleSubmit env id s).1 = false ∧
  showSuccess (handleSubmit env id s).1 = showSuccess s ∧
  timers (handleSubmit env id s).1 = timers s ∧
  pending (handleSubmit env id s).1 = pending s.
Proof.
  intros Hfd Hsub Hurls Hreject. unfold handleSubmit.
  rewrite (handleSubmit_begin_ready env id s fd imageUrls Hfd Hsub Hurls).
  unfold handleSubmit_resume. rewrite Hreject. cbn.
  repeat split; try reflexivity. exact Hfd.
Qed.

End FailedUpdate.

Lemma rejected_update_keeps_form_witness :
  Modal.formData
    (Modal.handleSubmit
       (Sample.collaborators (Normal []) (Throw Sample.rejected)) "p1"
       (Sample.ready Sample.lamp Sample.two_urls)).1 = Some Sample.lamp
  ∧ Modal.showSuccess
      (Modal.handleSubmit
         (Sample.collaborators (Normal []) (Throw Sample.rejected)) "p1"
         (Sample.ready Sample.lamp Sample.two_urls)).1 = false.
Proof.
  pose proof (rejected_update_keeps_form
                (Sample.collaborators (Normal []) (Throw Sample.rejected))
                "p1" (Sample.ready Sample.lamp Sample.two_urls)
                Sample.lamp Sample.two_urls Sample.rejected
                eq_refl eq_refl eq_refl eq_refl)
    as (_ & Hform & _ & _ & Hflag & _).
  split; [exact Hform | exact Hflag].
Defined.

(** ** The render branches *)

Section RenderFacts.
Import Modal.
Context {Product : Type}.
Implicit Types (i : RenderInput Product).

Lemma error_panel_is_panel i : is_error_panel (error_panel i) = true.
Proof.
  unfold error_panel. destruct (loadError i) as [v|]; [|reflexivity].
  destruct (truthy_error (Some v)); reflexivity.
Qed.

(** C10 (amended). The error panel is shown exactly when the modal is
    open, not loading, and either no product data is available from the
    fetch or the prop, or the form data is absent; whether a load error
    is present only selects its text.  With a fallback product and form
    data present, an open modal that is not loading renders the form,
    also when the fetch failed. *)
Theorem error_panel_iff_no_data i :
  (is_error_panel (render i) = true ↔
     isOpen i = true ∧ isLoading i = false ∧
     (productData i = None ∨ r_formData i = None)) ∧
  (∀ p fd,
      isOpen i = true → isLoading i = false →
      newProductData i = None → product i = Some p →
      r_formData i = Some fd →
      render i = EditForm (title_input_value fd)
                          (r_isSubmitting i || r_isUploading i)
                          (submit_label i)).
Proof.
  split.
  - unfold render.
    destruct (isOpen i); cbn [negb].
    2: { split; [discriminate | intros (H & _); discriminate]. }
    destruct (isLoading i).
    1: { split; [discriminate | intros (_ & H & _); discriminate]. }
    destruct (productData i) as [p|], (r_formData i) as [fd|];
      rewrite ?error_panel_is_panel; cbn [is_error_panel].
    + split; [discriminate | intros (_ & _ & [H|H]); discriminate].
    + split; [auto | reflexivity].
    + split; [auto | reflexivity].
    + split; [auto | reflexivity].
  - intros p fd Hopen Hload Hfetch Hprop Hform. unfold render, productData.
    rewrite Hopen, Hload, Hfetch, Hprop, Hform. reflexivity.
Qed.

End RenderFacts.

Lemma error_panel_iff_no_data_witness :
  Modal.render (Sample.fetch_failed_with_fallback (Some Sample.lamp))
  = Modal.EditForm "Lamp" false Modal.LabelUpdateProduct.
Proof.
  apply (proj2 (error_panel_iff_no_data
                  (Sample.fetch_failed_with_fallback (Some Sample.lamp)))
           Sample.lamp Sample.lamp);
    reflexivity.
Defined.

(** C10, as stated, fails: the fetch failed, a fallback product was
    supplied, so product data is available; the form data is absent in this
    render, and the component returns the error panel. *)
Lemma error_panel_with_fallback_counterexample :
  Modal.newProductData (Sample.fetch_failed_with_fallback None) = None
  ∧ Modal.product (Sample.fetch_failed_with_fallback None) = Some Sample.lamp
  ∧ Modal.productData (Sample.fetch_failed_with_fallback None)
    = Some Sample.lamp
  ∧ Modal.render (Sample.fetch_failed_with_fallback None)
    = Modal.ErrorPanel "Failed to load product" "Error: Request failed".
Proof. repeat split. Qed.

(** ** The product fetcher *)

Section FetcherFacts.
Import Fetcher.

(** C8 (amended). [jsonFetcher] fails exactly when the underlying request
    throws (with that error), when it resolves to a falsy value (with
    "No response from server"), or when the [json()] of the response
    rejects (with that error).  In every other case it succeeds, with the
    decoded body or with the truthy value the request resolved to, and
    that value is returned as it is: no check of the envelope shape is
    made. *)
Theorem jsonFetcher_outcomes (fetcher : string → Completion FetchResult)
    (url : string) :
  (∀ e, jsonFetcher fetcher url = Throw e ↔
        fetcher url = Throw e
        ∨ (∃ res, fetcher url = Normal res ∧ truthy res = false
                  ∧ e = no_response)
        ∨ (∃ r, fetcher url = Normal (ResResponse r) ∧ json r = Throw e)) ∧
  (∀ v, jsonFetcher fetcher url = Normal v ↔
        (∃ r, fetcher url = Normal (ResResponse r) ∧ json r = Normal v)
        ∨ (fetcher url = Normal (ResValue v)
           ∧ truthy (ResValue v) = true)).
Proof.
  unfold jsonFetcher. destruct (fetcher url) as [res|e0]; split.
  - intros e. destruct (truthy res) eqn:Ht; cbn [negb].
    + destruct res as [|v|r].
      * discriminate.
      * split; [discriminate|].
        intros [H|[(res & H & Hf & _)|(r & H & _)]]; try discriminate.
        injection H as <-. congruence.
      * split.
        -- intros H. right; right. exists r. auto.
        -- intros [H|[(res & H & Hf & _)|(r' & H & Hj)]]; try discriminate.
           ++ injection H as <-. cbn in Hf. discriminate.
           ++ injection H as <-. exact Hj.
    + split.
      * intros H. injection H as <-. right; left. exists res. auto.
      * intros [H|[(res' & H & _ & ->)|(r & H & _)]]; try discriminate.
        -- reflexivity.
        -- injection H as ->. cbn in Ht. discriminate.
  - intros v. destruct (truthy res) eqn:Ht; cbn [negb].
    + destruct res as [|v0|r].
      * discriminate.
      * split.
        -- intros H. injection H as <-. right. auto.
        -- intros [(r & H & _)|(H & _)]; [discriminate|].
           injection H as <-. reflexivity.
      * split.
        -- intros H. left. exists r. auto.
        -- intros [(r' & H & Hj)|(H & _)]; [|discriminate].
           injection H as <-. exact Hj.
    + split; [discriminate|].
      intros [(r & H & _)|(H & Hv)].
      * injection H as ->. cbn in Ht. discriminate.
      * injection H as ->. congruence.
  - intros e. split.
    + intros H. left. injection H as ->. reflexivity.
    + intros [H|[(res & H & _)|(r & H & _)]]; [|discriminate..].
      injection H as ->. reflexivity.
  - intros v. split; [discriminate|].
    intros [(r & H & _)|(H & _)]; discriminate.
Qed.

(** C8, as stated, fails: a response whose body is JSON but not the
    envelope is decoded without error, and [jsonFetcher] succeeds with
    that value. *)
Lemma jsonFetcher_envelope_counterexample :
  jsonFetcher answers_not_found "/api/listing-details?id=p1"
  = Normal not_found_body
  ∧ is_envelope not_found_body = false.
Proof. split; reflexivity. Qed.

End FetcherFacts.

Section FetcherRequests.
Import Fetcher.

Lemma apiUrl_none productId enabled :
  productId = "" ∨ enabled = false → apiUrl productId enabled = None.
Proof.
  unfold apiUrl. intros [-> | ->]; [|reflexivity].
  destruct enabled; reflexivity.
Qed.

Lemma truthy_str_true (str : string) : str ≠ "" → truthy_str str = true.
Proof.
  intros Hne. unfold truthy_str. apply negb_true_iff, String.eqb_neq, Hne.
Qed.

Lemma apiUrl_some productId :
  productId ≠ "" →
  apiUrl productId true = Some ("/api/listing-details?id=" +:+ productId).
Proof.
  intros Hne. unfold apiUrl. rewrite (truthy_str_true _ Hne). reflexivity.
Qed.

(** Two renders give [useSWR] the same non-null key only when they have
    the same props. *)
Lemma apiUrl_inj productId productId' enabled' :
  productId ≠ "" →
  apiUrl productId' enabled' = apiUrl productId true →
  (productId', enabled') = (productId, true).
Proof.
  intros Hne. rewrite (apiUrl_some _ Hne). unfold apiUrl.
  destruct enabled'; [|discriminate].
  destruct (truthy_str productId'); [|discriminate].
  cbn [andb]. intros H. injection H as H.
  change (productId' = productId) in H.
  rewrite H. reflexivity.
Qed.


(** What a render of a coherent instance starts. *)
Lemma render_starts productId enabled cached inst :
  coherent inst →
  ((productId = "" ∨ enabled = false
    ∨ last_deps inst = Some (productId, enabled))
   ∧ (useFetchProductById productId enabled cached inst).2 = [])
  ∨ (productId ≠ "" ∧ enabled = true
     ∧ last_deps inst ≠ Some (productId, enabled)
     ∧ (useFetchProductById productId enabled cached inst).2
       = if known cached ("/api/listing-details?id=" +:+ productId)
         then [ByRefresh ("/api/listing-details?id=" +:+ productId)]
         else [ByKey ("/api/listing-details?id=" +:+ productId);
               ByRefresh ("/api/listing-details?id=" +:+ productId)]).
Proof.
  intros Hco. unfold useFetchProductById. cbn [snd].
  destruct (decide (productId = "" ∨ enabled = false)) as [Hoff|Hon].
  - left. split; [tauto|].
    rewrite (apiUrl_none _ _ Hoff). cbn [swr_on_render].
    unfold effect_on_render. case_bool_decide; [reflexivity|].
    destruct Hoff as [-> | ->]; [reflexivity|].
    rewrite andb_false_r. reflexivity.
  - assert (productId ≠ "") as Hne by (intros ->; apply Hon; auto).
    assert (enabled = true) as -> by (destruct enabled; [reflexivity|];
                                      exfalso; apply Hon; auto).
    rewrite (apiUrl_some _ Hne). unfold swr_on_render, effect_on_render.
    rewrite (truthy_str_true _ Hne). cbn [andb refresh].
    unfold coherent in Hco.
    destruct (decide (last_deps inst = Some (productId, true))) as [Hsame|Hnew].
    + left. split; [tauto|]. rewrite Hsame in Hco. cbn in Hco.
      rewrite (apiUrl_some _ Hne) in Hco. rewrite Hco.
      rewrite !bool_decide_eq_true_2 by (reflexivity || exact Hsame).
      reflexivity.
    + right. split; [exact Hne|]. split; [reflexivity|]. split; [exact Hnew|].
      rewrite (bool_decide_eq_false_2 _ Hnew).
      rewrite bool_decide_eq_false_2.
      * unfold known. repeat case_bool_decide; reflexivity.
      * intros Hkey. apply Hnew. rewrite Hkey in Hco.
        destruct (last_deps inst) as [[p' en']|]; [|discriminate].
        cbn in Hco. injection Hco as Hco.
        rewrite <- (apiUrl_some _ Hne) in Hco. symmetry in Hco.
        rewrite (apiUrl_inj _ _ _ Hne Hco). reflexivity.
Qed.

(** C9 (amended). When the identifier is empty or fetching is disabled,
    a render of the hook starts no fetch and [refetch] starts none.
    Each change of the props to a non-empty identifier with fetching
    enabled starts exactly one [refresh()] from the hook's effect; when
    the cache holds neither data nor a recent request for the new key,
    the revalidation [useSWR] starts for it comes before, so that the key
    is fetched twice; otherwise the [refresh()] is the only fetch.  A
    render with unchanged props starts none. *)
Theorem requests_of_render productId enabled cached inst :
  (productId = "" ∨ enabled = false →
     (useFetchProductById productId enabled cached inst).2 = []
     ∧ refetch productId enabled = []) ∧
  (coherent inst → productId ≠ "" → enabled = true →
     last_deps inst ≠ Some (productId, enabled) →
     (useFetchProductById productId enabled cached inst).2
     = if known cached ("/api/listing-details?id=" +:+ productId)
       then [ByRefresh ("/api/listing-details?id=" +:+ productId)]
       else [ByKey ("/api/listing-details?id=" +:+ productId);
             ByRefresh ("/api/listing-details?id=" +:+ productId)]) ∧
  (coherent inst → last_deps inst = Some (productId, enabled) →
     (useFetchProductById productId enabled cached inst).2 = []).
Proof.
  split; [|split].
  - intros Hoff. unfold useFetchProductById, refetch. cbn [snd].
    rewrite (apiUrl_none _ _ Hoff). cbn [swr_on_render refresh].
    split; [|destruct enabled; reflexivity].
    unfold effect_on_render. case_bool_decide; [reflexivity|].
    destruct Hoff as [-> | ->]; [reflexivity|].
    rewrite andb_false_r. reflexivity.
  - intros Hco Hne Hen Hchanged.
    destruct (render_starts productId enabled cached inst Hco)
      as [([->|[->|Hsame]] & _) | (_ & _ & _ & Hrun)];
      [contradiction | discriminate | contradiction | exact Hrun].
  - intros Hco Hsame.
    destruct (render_starts productId enabled cached inst Hco)
      as [(_ & Hrun) | (_ & _ & Hnew & _)];
      [exact Hrun | contradiction].
Qed.

(** C9, as stated, fails: mounting the hook with identifier "p1", and
    then changing the identifier to "p2", starts two fetches each time,
    not one: the cache knows neither key yet. *)
Lemma one_fetch_per_change_counterexample :
  (useFetchProductById "p1" true Fetcher.cold unmounted).2
  = [ByKey "/api/listing-details?id=p1";
     ByRefresh "/api/listing-details?id=p1"]
  ∧ (useFetchProductById "p2" true p1_cached
       (useFetchProductById "p1" true Fetcher.cold unmounted).1).2
    = [ByKey "/api/listing-details?id=p2";
       ByRefresh "/api/listing-details?id=p2"].
Proof. split; reflexivity. Qed.

End FetcherRequests.

Lemma requests_of_render_witness :
  (Fetcher.useFetchProductById "" true Fetcher.cold Fetcher.unmounted).2 = []
  ∧ (Fetcher.useFetchProductById "p1" false Fetcher.cold Fetcher.unmounted).2 = []
  ∧ (Fetcher.useFetchProductById "p2" true Fetcher.cold
       (Fetcher.useFetchProductById "p1" true Fetcher.cold Fetcher.unmounted).1).2
    = [Fetcher.ByKey "/api/listing-details?id=p2";
       Fetcher.ByRefresh "/api/listing-details?id=p2"]
  ∧ (Fetcher.useFetchProductById "p1" true Fetcher.p1_cached
       (Fetcher.useFetchProductById "p2" true Fetcher.p1_cached
          Fetcher.unmounted).1).2
    = [Fetcher.ByRefresh "/api/listing-details?id=p1"]
  ∧ (Fetcher.useFetchProductById "p2" true Fetcher.cold
       (Fetcher.useFetchProductById "p2" true Fetcher.cold Fetcher.unmounted).1).2 = [].
Proof.
  split; [|split; [|split; [|split]]].
  - apply (proj1 (requests_of_render "" true Fetcher.cold Fetcher.unmounted)).
    left. reflexivity.
  - apply (proj1 (requests_of_render "p1" false Fetcher.cold Fetcher.unmounted)).
    right. reflexivity.
  - exact (proj1 (proj2 (requests_of_render "p2" true Fetcher.cold
                           (Fetcher.useFetchProductById "p1" true Fetcher.cold
                              Fetcher.unmounted).1))
             eq_refl ltac:(discriminate) eq_refl ltac:(discriminate)).
  - exact (proj1 (proj2 (requests_of_render "p1" true Fetcher.p1_cached
                           (Fetcher.useFetchProductById "p2" true
                              Fetcher.p1_cached Fetcher.unmounted).1))
             eq_refl ltac:(discriminate) eq_refl ltac:(discriminate)).
  - apply (proj2 (proj2 (requests_of_render "p2" true Fetcher.cold
                           (Fetcher.useFetchProductById "p2" true Fetcher.cold
                              Fetcher.unmounted).1))).
    + reflexivity.
    + reflexivity.
Defined.

(** ** The image manager *)

Section PositionLists.

(** Positions are the numbers below the length, each once, exactly when
    they are pairwise distinct and all below the length. *)
Lemma perm_seq_iff (ps : list nat) :
  ps ≡ₚ seq 0 (length ps)
  ↔ NoDup ps ∧ ∀ q, q ∈ ps → (q < length ps)%nat.
Proof.
  split.
  - intros Hperm. split.
    + rewrite Hperm. apply NoDup_seq.
    + intros q Hq. rewrite Hperm in Hq. apply elem_of_seq in Hq. lia.
  - intros [Hnd Hbound]. apply submseteq_length_Permutation.
    + apply NoDup_submseteq; [exact Hnd|].
      intros q Hq. apply elem_of_seq. specialize (Hbound q Hq). lia.
    + rewrite length_seq. lia.
Qed.

(** Renumbering through a map that is one-to-one on the positions in use
    and stays below the length gives positions of the same kind. *)
Lemma remap_perm (g : nat → nat) (ps : list nat) (m : nat) :
  NoDup ps →
  (∀ q q', q ∈ ps → q' ∈ ps → g q = g q' → q = q') →
  (∀ q, q ∈ ps → (g q < m)%nat) →
  length ps = m →
  g <$> ps ≡ₚ seq 0 m.
Proof.
  intros Hnd Hinj Hbound Hlen.
  assert (length (g <$> ps) = m) as Hlen' by (rewrite length_fmap; exact Hlen).
  rewrite <- Hlen'. apply perm_seq_iff. split.
  - apply NoDup_fmap_2_strong; assumption.
  - intros q Hq. apply list_elem_of_fmap in Hq as (q0 & -> & Hq0).
    rewrite Hlen'. apply Hbound, Hq0.
Qed.

End PositionLists.

Section ImageManagerFacts.
Import ImageManager.
Implicit Types (l : list ImageEntry) (e : ImageEntry).

Lemma well_positioned_alt l :
  well_positioned l
  ↔ NoDup (positions l) ∧ ∀ q, q ∈ positions l → (q < length l)%nat.
Proof.
  unfold well_positioned.
  replace (length l) with (length (positions l))
    by (unfold positions; apply length_fmap).
  apply perm_seq_iff.
Qed.

Lemma find_entry_elem id l e : find_entry id l = Some e → e ∈ l.
Proof.
  unfold find_entry. induction l as [|x l IH]; cbn; [discriminate|].
  destruct (has_id id x).
  - intros H. injection H as ->. left.
  - intros H. right. apply IH, H.
Qed.

Lemma find_entry_position id l e :
  find_entry id l = Some e → position e ∈ positions l.
Proof.
  intros H. unfold positions. apply list_elem_of_fmap_2.
  eapply find_entry_elem, H.
Qed.

(** [delete_first] takes out exactly the entry [find_entry] finds. *)
Lemma delete_first_perm id l e :
  find_entry id l = Some e →
  positions l ≡ₚ position e :: positions (delete_first id l)
  ∧ length l = S (length (delete_first id l)).
Proof.
  unfold find_entry. induction l as [|x l IH]; cbn; [discriminate|].
  destruct (has_id id x).
  - intros H. injection H as ->. split; reflexivity.
  - intros H. destruct (IH H) as [Hperm Hlen]. split.
    + cbn. rewrite Hperm. apply Permutation_swap.
    + rewrite Hlen. reflexivity.
Qed.

Lemma positions_remap (F : ImageEntry → ImageEntry) (g : nat → nat) l :
  (∀ e, position (F e) = g (position e)) →
  positions (F <$> l) = g <$> positions l.
Proof.
  intros HF. unfold positions. rewrite <- !list_fmap_compose.
  apply list_fmap_ext. intros i e _. cbn. apply HF.
Qed.

Lemma addFiles_valid files l : valid l → valid (addFiles files l).1.
Proof.
  revert l. induction files as [|f files IH]; intros l Hl; [exact Hl|].
  cbn [addFiles]. destruct (too_large f).
  - specialize (IH l Hl). destruct (addFiles files l). exact IH.
  - destruct (Nat.ltb_spec maxImages (S (length l))) as [Hfull|Hroom].
    + specialize (IH l Hl). destruct (addFiles files l). exact IH.
    + apply IH. destruct Hl as [Hpos _]. split.
      * unfold well_positioned, positions in *.
        rewrite fmap_app, length_app. cbn [fmap list_fmap length position].
        rewrite Nat.add_1_r, seq_S, Hpos. reflexivity.
      * rewrite length_app. cbn. lia.
Qed.

Lemma remove_valid id l : valid l → valid (remove id l).
Proof.
  intros Hl. unfold remove.
  destruct (find_entry id l) as [gone|] eqn:Hfind; [|exact Hl].
  destruct Hl as [Hpos Hmax].
  destruct (delete_first_perm id l gone Hfind) as [Hperm Hlen].
  apply well_positioned_alt in Hpos as [Hnd Hbound].
  rewrite Hperm in Hnd. apply NoDup_cons in Hnd as [Hfresh Hnd].
  assert (∀ q, q ∈ positions (delete_first id l) →
               q ≠ position gone ∧ (q < length l)%nat) as Hrest.
  { intros q Hq. split; [intros ->; contradiction|].
    apply Hbound. rewrite Hperm. right. exact Hq. }
  assert (position gone < length l)%nat as Hgone.
  { apply Hbound. rewrite Hperm. left. }
  split.
  - unfold well_positioned. rewrite length_fmap.
    rewrite (positions_remap _
               (fun q => if Nat.ltb (position gone) q then Nat.pred q else q)).
    + apply remap_perm.
      * exact Hnd.
      * intros q q' Hq Hq'.
        destruct (Hrest q Hq), (Hrest q' Hq').
        destruct (Nat.ltb_spec (position gone) q),
                 (Nat.ltb_spec (position gone) q'); lia.
      * intros q Hq. destruct (Hrest q Hq).
        destruct (Nat.ltb_spec (position gone) q); lia.
      * unfold positions. apply length_fmap.
    + intros e. destruct (Nat.ltb (position gone) (position e)); reflexivity.
  - rewrite length_fmap. lia.
Qed.

Lemma moved_inj n from to q q' :
  (from < n)%nat → (to < n)%nat →
  moved from to q = moved from to q' → q = q'.
Proof.
  unfold moved. intros Hfrom Hto.
  destruct (Nat.eqb_spec q from), (Nat.eqb_spec q' from),
           (Nat.ltb_spec from q), (Nat.ltb_spec from q'),
           (Nat.leb_spec q to), (Nat.leb_spec q' to),
           (Nat.leb_spec to q), (Nat.leb_spec to q'),
           (Nat.ltb_spec q from), (Nat.ltb_spec q' from);
    cbn [andb]; lia.
Qed.

Lemma moved_bound n from to q :
  (from < n)%nat → (to < n)%nat → (q < n)%nat →
  (moved from to q < n)%nat.
Proof.
  unfold moved. intros Hfrom Hto Hq.
  destruct (Nat.eqb_spec q from), (Nat.ltb_spec from q),
           (Nat.leb_spec q to), (Nat.leb_spec to q),
           (Nat.ltb_spec q from);
    cbn [andb]; lia.
Qed.

Lemma reorder_valid sourceId targetPosition l :
  valid l → valid (reorder sourceId targetPosition l).
Proof.
  intros Hl. unfold reorder.
  destruct (find_entry sourceId l) as [src|] eqn:Hfind; [|exact Hl].
  destruct (Nat.ltb_spec targetPosition (length l)) as [Htarget|_];
    [|exact Hl].
  destruct Hl as [Hpos Hmax].
  apply well_positioned_alt in Hpos as [Hnd Hbound].
  pose proof (Hbound _ (find_entry_position _ _ _ Hfind)) as Hsrc.
  split; [|rewrite length_fmap; exact Hmax].
  unfold well_positioned. rewrite length_fmap.
  rewrite (positions_remap _ (moved (position src) targetPosition))
    by reflexivity.
  apply remap_perm.
  - exact Hnd.
  - intros q q' _ _. apply (moved_inj (length l)); assumption.
  - intros q Hq. apply moved_bound; auto.
  - unfold positions. apply length_fmap.
Qed.

Lemma setMain_valid id l : valid l → valid (setMain id l).
Proof.
  intros Hl. unfold setMain.
  destruct (find_entry id l) as [src|] eqn:Hfind; [|exact Hl].
  destruct Hl as [Hpos Hmax].
  apply well_positioned_alt in Hpos as [Hnd Hbound].
  pose proof (Hbound _ (find_entry_position _ _ _ Hfind)) as Hsrc.
  split; [|rewrite length_fmap; exact Hmax].
  unfold well_positioned. rewrite length_fmap.
  rewrite (positions_remap _
             (fun q => if Nat.eqb q (position src) then 0%nat
                       else if Nat.ltb q (position src) then S q else q)).
  - apply remap_perm.
    + exact Hnd.
    + intros q q' _ _.
      destruct (Nat.eqb_spec q (position src)),
               (Nat.eqb_spec q' (position src)),
               (Nat.ltb_spec q (position src)),
               (Nat.ltb_spec q' (position src)); lia.
    + intros q Hq. specialize (Hbound q Hq).
      destruct (Nat.eqb_spec q (position src)),
               (Nat.ltb_spec q (position src)); lia.
    + unfold positions. apply length_fmap.
  - intros e. destruct (Nat.eqb (position e) (position src));
      [reflexivity|].
    destruct (Nat.ltb (position e) (position src)); reflexivity.
Qed.

Lemma apply_valid l op : valid l → valid (apply l op).
Proof.
  destruct op; cbn [apply];
    auto using addFiles_valid, remove_valid, reorder_valid, setMain_valid.
Qed.

(** C2. Whatever sequence of [addFiles], [remove], [reorder] and
    [setMain] is applied to a valid list, the positions of the result are
    pairwise distinct, they are exactly the numbers from 0 up to the
    length minus one, and the list has at most [maxImages] = 10
    entries. *)
Theorem operations_keep_positions l (ops : list Operation) :
  valid l →
  NoDup (positions (foldl apply l ops)) ∧
  (∀ p, p ∈ positions (foldl apply l ops)
        ↔ (p < length (foldl apply l ops))%nat) ∧
  (length (foldl apply l ops) ≤ 10)%nat.
Proof.
  intros Hl.
  assert (valid (foldl apply l ops)) as [Hpos Hmax].
  { revert l Hl. induction ops as [|op ops IH]; intros l Hl; [exact Hl|].
    cbn. apply IH, apply_valid, Hl. }
  split; [|split].
  - apply well_positioned_alt, Hpos.
  - intros p. unfold well_positioned in Hpos. rewrite Hpos, elem_of_seq. lia.
  - exact Hmax.
Qed.

End ImageManagerFacts.

Section ImageManagerExamples.
Import ImageManager.

Example addFiles_appends :
  positions edited = [0; 1; 2; 3]%nat
  ∧ getImageUrls edited = ["a.jpg"; "b.jpg"; "blob:c.png"; "blob:d.png"].
Proof. split; reflexivity. Qed.

Example addFiles_rejects_large :
  addFiles [huge] gallery = (gallery, ["File too large: huge.png"]).
Proof. reflexivity. Qed.

Example remove_main_promotes_second :
  getImageUrls (remove 1 edited) = ["b.jpg"; "blob:c.png"; "blob:d.png"].
Proof. reflexivity. Qed.

Example setMain_moves_to_front :
  getImageUrls (setMain 3 edited)
  = ["blob:c.png"; "a.jpg"; "b.jpg"; "blob:d.png"].
Proof. reflexivity. Qed.

Example reorder_shifts_between :
  getImageUrls (reorder 1 2 edited)
  = ["b.jpg"; "blob:c.png"; "a.jpg"; "blob:d.png"].
Proof. reflexivity. Qed.

Example setMain_is_reorder_to_front :
  positions (setMain 3 edited) = positions (reorder 3 0 edited).
Proof. reflexivity. Qed.

Example beginUpload_all_hosted :
  (beginUpload hosted edited).1
  = Normal ["a.jpg"; "b.jpg"; "https://cdn/c.png"; "https://cdn/d.png"].
Proof. reflexivity. Qed.

Example beginUpload_in_position_order :
  (beginUpload hosted rearranged).1
  = Normal ["https://cdn/c.png"; "a.jpg"; "b.jpg"; "https://cdn/d.png"].
Proof. reflexivity. Qed.

Example beginUpload_one_failure :
  beginUpload flaky edited
  = (Throw (MkError "Error" "upload failed"), edited).
Proof. reflexivity. Qed.

Lemma gallery_valid : valid gallery.
Proof.
  split; [unfold well_positioned; cbn; reflexivity
         | cbn; unfold maxImages; lia].
Qed.

End ImageManagerExamples.

Lemma operations_keep_positions_witness :
  NoDup (ImageManager.positions
           (foldl ImageManager.apply ImageManager.gallery
              [ImageManager.AddFiles
                 [ImageManager.photo "c.png"; ImageManager.huge];
               ImageManager.SetMain 3; ImageManager.Reorder 1 2;
               ImageManager.Remove 2]))
  ∧ (length (foldl ImageManager.apply ImageManager.gallery
               [ImageManager.AddFiles
                  [ImageManager.photo "c.png"; ImageManager.huge];
                ImageManager.SetMain 3; ImageManager.Reorder 1 2;
                ImageManager.Remove 2]) ≤ 10)%nat.
Proof.
  assert (ImageManager.valid ImageManager.gallery) as Hvalid.
  { split; [unfold ImageManager.well_positioned; cbn; reflexivity
           | cbn; unfold ImageManager.maxImages; lia]. }
  pose proof (operations_keep_positions ImageManager.gallery
                [ImageManager.AddFiles
                   [ImageManager.photo "c.png"; ImageManager.huge];
                 ImageManager.SetMain 3; ImageManager.Reorder 1 2;
                 ImageManager.Remove 2]
                Hvalid)
    as (Hnd & _ & Hmax).
  split; [exact Hnd | exact Hmax].
Defined.

Section UploadFacts.
Import ImageManager.
Implicit Types (l : list ImageEntry) (e : ImageEntry).
Variable upload : File → Completion string.

Lemma upload_entry_throw e :
  upload_fails upload e = true → is_throw (upload_entry upload e) = true.
Proof.
  unfold upload_fails, upload_entry.
  destruct (kind e) as [url|f preview [] final]; try discriminate.
  destruct (upload f); [discriminate|reflexivity].
Qed.

Lemma upload_entry_normal e :
  upload_fails upload e = false →
  ∃ e', upload_entry upload e = Normal e' ∧ promoted upload e e'.
Proof.
  unfold upload_fails, upload_entry, promoted.
  destruct (kind e) as [url|f preview [] final] eqn:Hkind;
    try (intros _; exists e; repeat split; reflexivity).
  destruct (upload f) as [url|err]; [|discriminate].
  intros _. eexists. split; [reflexivity|].
  split; [reflexivity|]. split; [reflexivity|]. exists url. split; reflexivity.
Qed.

Lemma upload_all_throw l :
  existsb (upload_fails upload) l = true →
  is_throw (upload_all upload l) = true.
Proof.
  induction l as [|e l IH]; cbn [existsb upload_all]; [discriminate|].
  destruct (upload_fails upload e) eqn:He.
  - intros _. pose proof (upload_entry_throw e He) as Ht.
    destruct (upload_entry upload e); [discriminate|reflexivity].
  - cbn [orb]. intros Hl. specialize (IH Hl).
    destruct (upload_entry upload e); [|reflexivity].
    destruct (upload_all upload l); [discriminate|reflexivity].
Qed.

Lemma upload_all_normal l :
  existsb (upload_fails upload) l = false →
  ∃ l', upload_all upload l = Normal l' ∧ Forall2 (promoted upload) l l'.
Proof.
  induction l as [|e l IH]; cbn [existsb upload_all].
  - intros _. exists []. split; [reflexivity|constructor].
  - intros H. apply orb_false_iff in H as [He Hl].
    destruct (upload_entry_normal e He) as (e' & -> & Hp).
    destruct (IH Hl) as (l' & -> & Hall).
    exists (e' :: l'). split; [reflexivity|]. constructor; assumption.
Qed.

Lemma promoted_positions l l' :
  Forall2 (promoted upload) l l' → positions l' = positions l.
Proof.
  induction 1 as [|e e' l l' (_ & Hpos & _) _ IH]; [reflexivity|].
  cbn. rewrite Hpos. unfold positions in IH. rewrite IH. reflexivity.
Qed.

Lemma promoted_not_pending e e' :
  promoted upload e e' → is_pending e' = false.
Proof.
  intros (_ & _ & Hp). unfold is_pending.
  destruct (kind e) as [?|? ? [] ?] eqn:Hk;
    try (subst e'; rewrite Hk; reflexivity).
  destruct Hp as (url & _ & ->). reflexivity.
Qed.

(** The URL of an entry after the batch is the one the caller is to get
    for the entry it came from. *)
Lemma promoted_url e e' :
  promoted upload e e' → url_after upload e (entry_url e').
Proof.
  intros (_ & _ & Hp). unfold url_after.
  destruct (kind e) as [?|? ? [] ?] eqn:Hk;
    try (subst e'; reflexivity).
  destruct Hp as (url & Hup & Hk'). unfold entry_url. rewrite Hk'. exact Hup.
Qed.

Lemma entry_at_some l p :
  p ∈ positions l → is_Some (entry_at l p).
Proof.
  unfold entry_at, positions. induction l as [|e l IH]; cbn.
  - intros H. inversion H.
  - destruct (Nat.eqb_spec (position e) p) as [_|Hne]; [eauto|].
    intros H. apply IH. inversion H; subst; [contradiction|assumption].
Qed.

(** With distinct positions, the entry found at the position of an entry
    is that entry. *)
Lemma entry_at_own l e :
  NoDup (positions l) → e ∈ l → entry_at l (position e) = Some e.
Proof.
  unfold entry_at, positions. induction l as [|x l IH]; intros Hnd He.
  - inversion He.
  - cbn in Hnd. apply NoDup_cons in Hnd as [Hx Hnd]. cbn.
    apply elem_of_cons in He as [-> | He].
    + rewrite Nat.eqb_refl. reflexivity.
    + destruct (Nat.eqb_spec (position x) (position e)) as [Heq|_].
      * exfalso. apply Hx. rewrite Heq. apply list_elem_of_fmap_2, He.
      * apply IH; assumption.
Qed.

Lemma omap_length_all {A B} (f : A → option B) (xs : list A) :
  (∀ x, x ∈ xs → is_Some (f x)) → length (omap f xs) = length xs.
Proof.
  induction xs as [|x xs IH]; intros Hall; [reflexivity|].
  cbn. destruct (Hall x) as [y Hy]; [left|]. rewrite Hy. cbn.
  rewrite IH; [reflexivity|]. intros x' Hx'. apply Hall. right. exact Hx'.
Qed.

Lemma omap_lookup_all {A B} (f : A → option B) (xs : list A) (k : nat) :
  (∀ x, x ∈ xs → is_Some (f x)) → omap f xs !! k = xs !! k ≫= f.
Proof.
  revert k. induction xs as [|x xs IH]; intros k Hall; [reflexivity|].
  cbn. destruct (Hall x) as [y Hy]; [left|]. rewrite Hy.
  destruct k as [|k]; cbn; [exact (eq_sym Hy)|].
  apply IH. intros x' Hx'. apply Hall. right. exact Hx'.
Qed.

(** Read in position order, a well positioned list gives one URL per
    entry. *)
Lemma getImageUrls_length l :
  well_positioned l → length (getImageUrls l) = length l.
Proof.
  intros Hpos. unfold getImageUrls, in_order.
  rewrite length_fmap, omap_length_all; [apply length_seq|].
  intros p Hp. apply entry_at_some.
  unfold well_positioned in Hpos. rewrite Hpos. exact Hp.
Qed.

(** Read in position order, a well positioned list has the URL of each
    entry at the position of the entry. *)
Lemma getImageUrls_lookup l e :
  well_positioned l → e ∈ l →
  getImageUrls l !! position e = Some (entry_url e).
Proof.
  intros Hpos He. pose proof (proj1 (well_positioned_alt l) Hpos) as [Hnd Hb].
  unfold getImageUrls, in_order. rewrite list_lookup_fmap, omap_lookup_all.
  - rewrite lookup_seq_lt
      by (apply Hb; unfold positions; apply list_elem_of_fmap_2, He).
    cbn. rewrite (entry_at_own l e Hnd He). reflexivity.
  - intros p Hp. apply entry_at_some.
    unfold well_positioned in Hpos. rewrite Hpos. exact Hp.
Qed.

Lemma promoted_elem l l' e :
  Forall2 (promoted upload) l l' → e ∈ l →
  ∃ e', e' ∈ l' ∧ promoted upload e e'.
Proof.
  induction 1 as [|x x' l l' Hx _ IH]; intros He; [inversion He|].
  apply elem_of_cons in He as [-> | He].
  - exists x'. split; [left|exact Hx].
  - destruct (IH He) as (e' & He' & Hp). exists e'. split; [right|]; assumption.
Qed.

(** C6. [beginUpload] is all or nothing.  When the upload of some pending
    entry fails, the caller gets an error and no URLs, and the list is
    left as it was: no entry appears as uploaded that was not before.
    Otherwise, in the new list every entry that was pending is uploaded
    with the URL the upload collaborator gave for its file, every other
    entry is unchanged and none is pending; and the caller gets the URLs
    in position order: for a well positioned list, one URL per entry, the
    URL at the position of an entry being the hosted URL of its file when
    the entry was pending and its own URL otherwise. *)
Theorem beginUpload_all_or_nothing l :
  (existsb (upload_fails upload) l = true →
     is_throw (beginUpload upload l).1 = true
     ∧ (beginUpload upload l).2 = l) ∧
  (existsb (upload_fails upload) l = false →
     Forall2 (promoted upload) l (beginUpload upload l).2
     ∧ Forall (fun e => is_pending e = false) (beginUpload upload l).2
     ∧ ∃ urls,
         (beginUpload upload l).1 = Normal urls
         ∧ (well_positioned l →
            length urls = length l
            ∧ ∀ e, e ∈ l →
                   ∃ url, urls !! position e = Some url
                          ∧ url_after upload e url)).
Proof.
  unfold beginUpload. split.
  - intros Hfail. pose proof (upload_all_throw l Hfail) as Ht.
    destruct (upload_all upload l); [discriminate|]. split; reflexivity.
  - intros Hok. destruct (upload_all_normal l Hok) as (l' & -> & Hall).
    cbn [fst snd]. split; [exact Hall|]. split.
    + clear Hok. induction Hall as [|e e' l l' Hp _ IH];
        constructor; [|exact IH].
      exact (promoted_not_pending e e' Hp).
    + exists (getImageUrls l'). split; [reflexivity|]. intros Hpos.
      assert (well_positioned l') as Hpos'.
      { unfold well_positioned in *.
        rewrite (promoted_positions _ _ Hall).
        rewrite <- (Forall2_length _ _ _ Hall). exact Hpos. }
      split.
      * rewrite (getImageUrls_length l' Hpos').
        symmetry. eapply Forall2_length, Hall.
      * intros e He.
        destruct (promoted_elem l l' e Hall He) as (e' & He' & Hp).
        exists (entry_url e'). split; [|exact (promoted_url e e' Hp)].
        destruct Hp as (_ & <- & _).
        apply getImageUrls_lookup; assumption.
Qed.

End UploadFacts.

Lemma rearranged_well_positioned :
  ImageManager.well_positioned ImageManager.rearranged.
Proof.
  apply (setMain_valid 3 ImageManager.edited).
  apply (addFiles_valid [ImageManager.photo "c.png"; ImageManager.photo "d.png"]
           ImageManager.gallery).
  apply gallery_valid.
Qed.

Lemma beginUpload_all_or_nothing_witness :
  (ImageManager.beginUpload ImageManager.flaky ImageManager.edited).2
  = ImageManager.edited
  ∧ ∃ urls,
      (ImageManager.beginUpload ImageManager.hosted ImageManager.rearranged).1
      = Normal urls
      ∧ length urls = length ImageManager.rearranged
      ∧ ∀ e, e ∈ ImageManager.rearranged →
             ∃ url, urls !! ImageManager.position e = Some url
                    ∧ ImageManager.url_after ImageManager.hosted e url.
Proof.
  split.
  - apply (proj1 (beginUpload_all_or_nothing ImageManager.flaky
                    ImageManager.edited)).
    reflexivity.
  - destruct (proj2 (beginUpload_all_or_nothing ImageManager.hosted
                       ImageManager.rearranged) eq_refl)
      as (_ & _ & urls & Hurls & Hordered).
    exists urls. split; [exact Hurls|].
    exact (Hordered rearranged_well_positioned).
Defined.

(** ** More on the request *)

Section RequestShape.
Import Modal Session.

Lemma to_uint_nonnil (n : nat) : Nat.to_uint n ≠ Decimal.Nil.
Proof.
  rewrite <- (DecimalNat.Unsigned.of_to n) at 1.
  rewrite DecimalNat.Unsigned.to_of.
  apply DecimalFacts.unorm_nonnil.
Qed.

(** Two indices with the same decimal text are the same index. *)
Lemma show_index_inj (i j : nat) : show_index i = show_index j → i = j.
Proof.
  unfold show_index. intros H.
  apply DecimalNat.Unsigned.to_uint_inj.
  pose proof (NilZero.usu _ (to_uint_nonnil i)) as Hi.
  pose proof (NilZero.usu _ (to_uint_nonnil j)) as Hj.
  rewrite H in Hi. rewrite Hi in Hj. injection Hj as Hj. exact Hj.
Qed.

(** X1. The image references of a request carry the URLs that were read, all
    of them and in the same order. *)
Theorem image_refs_urls (imageUrls : list string) :
  imageUrl <$> image_refs imageUrls = imageUrls.
Proof.
  unfold image_refs. rewrite fmap_imap.
  rewrite (imap_ext _ (const id)) by reflexivity.
  rewrite imap_const. apply list_fmap_id.
Qed.

(** X2. The ids of the image references of a request are pairwise distinct,
    and the id at an index is "image-" followed by the index: it does not
    depend on the URL. *)
Theorem image_refs_ids (imageUrls : list string) :
  NoDup (image_id <$> image_refs imageUrls) ∧
  ∀ i ref, image_refs imageUrls !! i = Some ref →
           image_id ref = "image-" +:+ show_index i.
Proof.
  unfold image_refs. split.
  - apply NoDup_alt. intros i j x Hi Hj.
    rewrite list_lookup_fmap, list_lookup_imap in Hi, Hj.
    destruct (imageUrls !! i); [|discriminate].
    destruct (imageUrls !! j); [|discriminate].
    cbn in Hi, Hj. injection Hi as <-. injection Hj as Hj.
    apply show_index_inj. change ("" +:+ show_index j = "" +:+ show_index i)
      in Hj. cbn in Hj. symmetry. exact Hj.
  - intros i ref Hi. rewrite list_lookup_imap in Hi.
    destruct (imageUrls !! i); [|discriminate].
    cbn in Hi. injection Hi as <-. reflexivity.
Qed.

Lemma or_str_default (a : option string) : or_str a "" = default "" a.
Proof.
  destruct a as [str|]; [|reflexivity]. cbn. unfold truthy_str.
  destruct (String.eqb_spec str ""); cbn; congruence.
Qed.

(** X3. Whatever the form holds, the request carries [category],
    [subCategory] and [contactNumber] as the form value, or as the empty
    string when the form has none; its [childCategory] is [null] or a
    non-empty string, never the empty string; it is never promoted, and it
    has the identifier of the modal. *)
Theorem request_defaults (id : string) (fd : ProductEditData)
    (imageUrls : list string) :
  req_category (build_reqBody id fd imageUrls) = default "" (category fd) ∧
  req_subCategory (build_reqBody id fd imageUrls)
  = default "" (subCategory fd) ∧
  req_contactNumber (build_reqBody id fd imageUrls)
  = default "" (contactNumber fd) ∧
  req_childCategory (build_reqBody id fd imageUrls) ≠ Some "" ∧
  req_isPromoted (build_reqBody id fd imageUrls) = false ∧
  req_id (build_reqBody id fd imageUrls) = id.
Proof.
  cbn [build_reqBody req_category req_subCategory req_contactNumber
       req_childCategory req_isPromoted req_id].
  rewrite !or_str_default. repeat split.
  unfold coerce_childCategory.
  destruct (childCategory fd) as [[|str]|]; try discriminate.
  unfold truthy_str. destruct (String.eqb_spec str ""); cbn; congruence.
Qed.

(** X4. The title input is empty exactly when the form has neither a
    non-empty [title] nor a non-empty [name]; a non-empty [title] is shown
    as it is; and a [title] cleared to the empty string falls back to the
    [name], in the input and in the request alike. *)
Theorem title_input_cases (fd : ProductEditData) :
  (title_input_value fd = "" ↔ blank_str (title fd) ∧ blank_str (name fd)) ∧
  (∀ t, title fd = Some t → t ≠ "" →
        title_input_value fd = t ∧
        ∀ id imageUrls, req_title (build_reqBody id fd imageUrls) = Some t) ∧
  (title fd = Some "" →
     title_input_value fd = default "" (name fd) ∧
     ∀ id imageUrls, req_title (build_reqBody id fd imageUrls) = name fd).
Proof.
  unfold title_input_value, blank_str.
  cbn [build_reqBody req_title]. split; [|split].
  - unfold or_opt, or_str, truthy_str.
    destruct (title fd) as [t|], (name fd) as [n|]; cbn;
      repeat match goal with
             | |- context [String.eqb ?x ""] =>
                 destruct (String.eqb_spec x ""); cbn
             end;
      subst; intuition congruence.
  - intros t Ht Hne. rewrite Ht. unfold or_opt, or_str, truthy_str.
    destruct (String.eqb_spec t ""); [contradiction|]. cbn.
    destruct (String.eqb_spec t ""); [contradiction|]. split; reflexivity.
  - intros Ht. rewrite Ht. cbn. split; [apply or_str_default|reflexivity].
Qed.

End RequestShape.

Lemma title_input_cases_witness :
  Modal.title_input_value (Sample.with_title_name (Some "") (Some "Chair"))
  = "Chair"
  ∧ Modal.title_input_value (Sample.with_title_name (Some "Sofa") (Some "Chair"))
    = "Sofa".
Proof.
  split.
  - apply (proj1 (proj2 (proj2 (title_input_cases
             (Sample.with_title_name (Some "") (Some "Chair")))) eq_refl)).
  - apply (proj1 (proj1 (proj2 (title_input_cases
             (Sample.with_title_name (Some "Sofa") (Some "Chair"))))
             "Sofa" eq_refl ltac:(discriminate))).
Defined.

(** ** More on the submit flow *)

Section SubmitRuns.
Import Modal Session.
Context {Images : Type}.
Implicit Types (env : Collaborators Images) (s : ModalState Images).




(** X5. A run of [handleSubmit] calls the update collaborator at most once,
    and exactly once when there is form data, no submission is under way
    and reading the image URLs does not throw; in every other case it
    calls it not at all. *)
Theorem submit_updates_at_most_once env id s :
  (count is_update (handleSubmit env id s).2 ≤ 1)%nat ∧
  (count is_update (handleSubmit env id s).2 = 1%nat
   ↔ is_Some (formData s) ∧ isSubmitting s = false
     ∧ is_throw (getImageUrls env (images s)) = false).
Proof.
  destruct (handleSubmit_cases env id s)
    as [[Hrun Hc] | [(fd & e & Hfd & Hsub & Hurls & Hrun)
                   | (fd & urls & Hfd & Hsub & Hurls & Hrun)]];
    cbv zeta in Hrun; rewrite Hrun; cbn [fst snd].
  - split; [cbn; lia|]. split; [discriminate|].
    intros ([fd Hfd] & Hsub & _). destruct Hc; congruence.
  - split; [cbn; lia|]. split; [discriminate|].
    intros (_ & _ & Ht). rewrite Hurls in Ht. discriminate.
  - assert (count is_update
              ([EvPreventDefault; EvSetIsSubmitting true; EvGetImageUrls;
                EvOnUpdate (build_reqBody id fd urls)]
               ++ (handleSubmit_resume (onUpdate env (build_reqBody id fd urls))
                     (set_pending (S (pending s))
                        (setIsSubmitting true s))).2) = 1%nat) as ->.
    { unfold count. rewrite List.filter_app, length_app.
      destruct (onUpdate env (build_reqBody id fd urls)); reflexivity. }
    split; [lia|]. split; [|reflexivity].
    intros _. rewrite Hfd, Hsub, Hurls. split; [eauto|]. split; reflexivity.
Qed.


(** A flag that is set has an update behind it: no event sets it without
    starting one, and every settling clears it. *)
Lemma set_flag_step env id (inst : ModalInstance Images) a :
  (isSubmitting (current inst) = true → (1 ≤ pending (current inst))%nat) →
  isSubmitting (current (step env id inst a)) = true →
  (1 ≤ pending (current (step env id inst a)))%nat.
Proof.
  intros Hin. destruct a as [|outcome| |fd|i|]; cbn [step current].
  - unfold handleSubmit_begin.
    destruct (formData (closure inst)); [|exact Hin].
    destruct (isSubmitting (closure inst)); [exact Hin|].
    destruct (getImageUrls env (images (closure inst))); cbn.
    + intros _. lia.
    + discriminate.
  - destruct (pending (current inst)) as [|n] eqn:Hp.
    + rewrite Hp. exact Hin.
    + destruct outcome; cbn; discriminate.
  - destruct (timers (current inst)); exact Hin.
  - destruct (formData (closure inst)); exact Hin.
  - exact Hin.
  - exact Hin.
Qed.

(** X7. Whatever happens to an instance after it is mounted, an instance
    marked as submitting has an update awaited: the flag is never left set
    once every update has settled.  When every submit is handled by a
    render made after the submit before it, [isSubmitting] is true exactly
    while one update is awaited. *)
Theorem submitting_iff_awaiting env id fd (i : Images)
    (acts : list (Action Images)) :
  (isSubmitting (current (run env id (rendered (mounted fd i)) acts)) = true →
   (1 ≤ pending (current (run env id (rendered (mounted fd i)) acts)))%nat) ∧
  (rendered_between true acts = true →
   (isSubmitting (current (run env id (rendered (mounted fd i)) acts)) = true
    ↔ pending (current (run env id (rendered (mounted fd i)) acts)) = 1%nat)).
Proof.
  split.
  - generalize (rendered (mounted fd i)),
      (λ H : isSubmitting (current (rendered (mounted fd i))) = true,
         False_ind (1 ≤ pending (current (rendered (mounted fd i))))%nat
                   (Bool.diff_false_true H)).
    induction acts as [|a acts IH]; intros inst Hin; [exact Hin|].
    cbn [run foldl]. apply IH, set_flag_step, Hin.
  - intros Hok.
    destruct (in_step_run env id acts _ true (in_step_mounted fd i) Hok)
      as (fresh' & [[-> ->]|[-> ->]] & _); split; congruence.
Qed.

(** Each step keeps the account of close timers: those pending plus those
    fired are the successes reported. *)
Lemma timers_account_step env id (inst : ModalInstance Images) a :
  (timers (current (step env id inst a))
   + count is_cancel (step_events env id inst a)
   = timers (current inst) + count is_success (step_events env id inst a))%nat.
Proof.
  destruct a as [|outcome| |fd|i|]; cbn [step step_events current].
  - unfold handleSubmit_begin.
    destruct (formData (closure inst)); [|cbn; lia].
    destruct (isSubmitting (closure inst)); [cbn; lia|].
    destruct (getImageUrls env (images (closure inst))); cbn; lia.
  - destruct (pending (current inst)); [cbn; lia|].
    destruct outcome; cbn; lia.
  - destruct (timers (current inst)) as [|n] eqn:Ht; [cbn; lia|].
    cbn. rewrite Ht. cbn. lia.
  - destruct (formData (closure inst)); cbn; lia.
  - cbn. lia.
  - cbn. lia.
Qed.

Lemma timers_account_run env id acts (inst : ModalInstance Images) :
  (timers (current (run env id inst acts))
   + count is_cancel (run_log env id inst acts)
   = timers (current inst) + count is_success (run_log env id inst acts))%nat.
Proof.
  revert inst. induction acts as [|a acts IH]; intros inst; [cbn; lia|].
  cbn [run_log]. unfold count in *.
  rewrite !List.filter_app, !length_app.
  change (run env id inst (a :: acts))
    with (run env id (step env id inst a) acts).
  specialize (IH (step env id inst a)).
  pose proof (timers_account_step env id inst a) as Hstep.
  unfold count in Hstep. lia.
Qed.

(** X8. Over the whole life of an instance, the timed close (the call of
    [onCancel] from the timer) happens only after a successful update, at
    most once for each: the timed closes made plus the close timers still
    pending are the successes reported so far.  This holds of every
    sequence of events, whichever render handles a submit. *)
Theorem closes_follow_successes env id fd (i : Images)
    (acts : list (Action Images)) :
  (count is_cancel (run_log env id (rendered (mounted fd i)) acts)
   + timers (current (run env id (rendered (mounted fd i)) acts))
   = count is_success (run_log env id (rendered (mounted fd i)) acts))%nat.
Proof.
  pose proof (timers_account_run env id acts (rendered (mounted fd i))) as H.
  cbn [rendered mounted timers current] in H. lia.
Qed.

End SubmitRuns.

Lemma submitting_iff_awaiting_witness :
  Modal.isSubmitting
    (Modal.current
       (Modal.run (Sample.collaborators (Normal []) (Normal ())) "p1"
          (Modal.rendered (Modal.mounted (Some Sample.lamp) Sample.two_urls))
          [Modal.ActSubmit; Modal.ActRender; Modal.ActSubmit])) = true
  ↔ Modal.pending
      (Modal.current
         (Modal.run (Sample.collaborators (Normal []) (Normal ())) "p1"
            (Modal.rendered (Modal.mounted (Some Sample.lamp) Sample.two_urls))
            [Modal.ActSubmit; Modal.ActRender; Modal.ActSubmit])) = 1%nat.
Proof.
  apply (proj2 (submitting_iff_awaiting
                  (Sample.collaborators (Normal []) (Normal ())) "p1"
                  (Some Sample.lamp) Sample.two_urls
                  [Modal.ActSubmit; Modal.ActRender; Modal.ActSubmit])
           eq_refl).
Defined.

(** ** More on the render branches *)

Section Views.
Import Modal Session.
Context {Product Images : Type}.
Implicit Types (i : RenderInput Product) (s : ModalState Images).

(** X9. The views of one submission.  For an open modal that is not loading
    and not uploading and has product data, and a render of a state with
    form data in which no submission is under way: once the form is
    submitted, both controls are disabled and the button reads
    "Updating..." until the update settles; when it resolves the controls
    are enabled again and the button reads "Success!" until the close
    timer fires; when it rejects the view is again the one before the
    submission. *)
Theorem views_of_a_submission i (env : Collaborators Images) id s fd
    imageUrls :
  isOpen i = true → isLoading i = false → is_Some (productData i) →
  r_isUploading i = false →
  formData s = Some fd → isSubmitting s = false →
  getImageUrls env (images s) = Normal imageUrls →
  view i (current (step env id (rendered s) ActSubmit))
  = EditForm (title_input_value fd) true LabelUpdating ∧
  view i (current (step env id (step env id (rendered s) ActSubmit)
                     (ActSettle (Normal ()))))
  = EditForm (title_input_value fd) false LabelSuccess ∧
  view i (current (step env id
                     (step env id (step env id (rendered s) ActSubmit)
                        (ActSettle (Normal ())))
                     ActTimer))
  = EditForm (title_input_value fd) false LabelUpdateProduct ∧
  ∀ e, view i (current (step env id (step env id (rendered s) ActSubmit)
                          (ActSettle (Throw e))))
       = view i s.
Proof.
  intros Hopen Hload [p Hdata] Hup Hfd Hsub Hurls.
  cbn [step rendered closure current].
  rewrite (handleSubmit_begin_ready env id s fd imageUrls Hfd Hsub Hurls).
  cbn [fst snd commit foldl apply_event set_pending setIsSubmitting pending
       current closure].
  unfold view, render, submit_label, isLoading, productData in *.
  cbn in *. rewrite Hopen, Hload, Hdata, Hup, Hfd. cbn.
  repeat split. intros e. rewrite Hsub. reflexivity.
Qed.

Ltac view_cases :=
  repeat match goal with
         | |- _ ∧ _ => split
         | |- _ ↔ _ => split
         | |- _ → _ => intros ?
         | H : _ ∧ _ |- _ => destruct H
         | H : ∃ _, _ |- _ => destruct H
         | H : is_Some None |- _ => destruct H as [? H]
         end;
  try discriminate; try congruence; try reflexivity;
  try (eexists; reflexivity); try (do 3 eexists; reflexivity).

(** X10. The four views exclude each other by precedence: a closed modal
    renders nothing, whatever else holds; an open modal that is loading
    renders the loading panel, whatever data or error there is; the form
    is rendered only when the modal is open, not loading, and has both
    product data and form data. *)
Theorem render_precedence i :
  (render i = Hidden ↔ isOpen i = false) ∧
  (render i = LoadingPanel ↔ isOpen i = true ∧ isLoading i = true) ∧
  ((∃ t d l, render i = EditForm t d l)
   ↔ isOpen i = true ∧ isLoading i = false
     ∧ is_Some (productData i) ∧ is_Some (r_formData i)).
Proof.
  pose proof (error_panel_is_panel i) as Hpanel.
  unfold render.
  destruct (isOpen i); cbn [negb]; [|view_cases].
  destruct (isLoading i); [view_cases|].
  destruct (productData i) as [p|], (r_formData i) as [fd|];
    [view_cases|..];
    destruct (error_panel i); cbn in Hpanel; try discriminate; view_cases.
Qed.

End Views.

Lemma views_of_a_submission_witness :
  Session.view (Sample.fetch_failed_with_fallback None)
    (Modal.current
       (Modal.step (Sample.collaborators (Normal []) (Normal ())) "p1"
          (Modal.rendered (Sample.ready Sample.lamp Sample.two_urls))
          Modal.ActSubmit))
  = Modal.EditForm "Lamp" true Modal.LabelUpdating.
Proof.
  apply (views_of_a_submission (Sample.fetch_failed_with_fallback None)
           (Sample.collaborators (Normal []) (Normal ())) "p1"
           (Sample.ready Sample.lamp Sample.two_urls)
           Sample.lamp Sample.two_urls);
    first [reflexivity | eexists; reflexivity].
Defined.

Section Overrides.
Import Modal Session.
Context {Product : Type}.
Implicit Types (i : RenderInput Product).

(** X11. The props override the fetch hook.  When the [loading] prop is
    given, the loading state the hook reports makes no difference to what
    is rendered, so [loading = false] hides a fetch that is still under
    way; when the [error] prop is given, the hook's error makes no
    difference, so a falsy [error] prop hides a fetch error. *)
Theorem props_override_hook i :
  (is_Some (externalLoading i) →
   ∀ loading,
     render (with_fetch (newProductData i) loading (errorProduct i) i)
     = render i) ∧
  (is_Some (externalError i) →
   ∀ error,
     render (with_fetch (newProductData i) (isLoadingProduct i) error i)
     = render i).
Proof.
  split.
  - intros [b Hb] loading.
    unfold render, with_fetch, isLoading, productData, error_panel, loadError,
      submit_label.
    cbn. rewrite Hb. reflexivity.
  - intros [v Hv] error.
    unfold render, with_fetch, isLoading, productData, error_panel, loadError,
      submit_label.
    cbn. rewrite Hv. reflexivity.
Qed.

(** X12. When the error panel is rendered its text goes by the load error
    alone: with a truthy load error the heading is "Failed to load product"
    and the detail is the error as a string; otherwise, also for a load
    error that is an empty string, the heading is "Product not found" with
    the fixed detail. *)
Theorem error_panel_text i heading detail :
  render i = ErrorPanel heading detail →
  (truthy_error (loadError i) = true
   ∧ heading = "Failed to load product"
   ∧ ∃ v, loadError i = Some v ∧ detail = string_of_error v)
  ∨ (truthy_error (loadError i) = false
     ∧ heading = "Product not found"
     ∧ detail = "Unable to load product data. Please try again.").
Proof.
  unfold render.
  destruct (isOpen i); cbn [negb]; [|discriminate].
  destruct (isLoading i); [discriminate|].
  assert (error_panel i = ErrorPanel heading detail →
          (truthy_error (loadError i) = true
           ∧ heading = "Failed to load product"
           ∧ ∃ v, loadError i = Some v ∧ detail = string_of_error v)
          ∨ (truthy_error (loadError i) = false
             ∧ heading = "Product not found"
             ∧ detail = "Unable to load product data. Please try again."))
    as Hpanel.
  { unfold error_panel. destruct (loadError i) as [v|].
    - destruct (truthy_error (Some v)) eqn:Ht; intros H; injection H as <- <-.
      + left. eauto.
      + right. auto.
    - intros H. injection H as <- <-. right. auto. }
  destruct (productData i), (r_formData i); try exact Hpanel. discriminate.
Qed.

End Overrides.

Lemma props_override_hook_witness :
  Modal.render
    {| Modal.isOpen := true; Modal.product := Some Sample.lamp;
       Modal.externalLoading := Some false; Modal.externalError := None;
       Modal.newProductData := None; Modal.isLoadingProduct := true;
       Modal.errorProduct := None;
       Modal.r_formData := Some Sample.lamp; Modal.r_isSubmitting := false;
       Modal.r_isUploading := false; Modal.r_showSuccess := false |}
  = Modal.EditForm "Lamp" false Modal.LabelUpdateProduct.
Proof.
  rewrite <- (proj1 (props_override_hook
    {| Modal.isOpen := true; Modal.product := Some Sample.lamp;
       Modal.externalLoading := Some false; Modal.externalError := None;
       Modal.newProductData := None; Modal.isLoadingProduct := true;
       Modal.errorProduct := None;
       Modal.r_formData := Some Sample.lamp; Modal.r_isSubmitting := false;
       Modal.r_isUploading := false; Modal.r_showSuccess := false |})
    (ex_intro _ false eq_refl) false).
  reflexivity.
Defined.

Lemma error_panel_text_witness :
  Modal.truthy_error
    (Modal.loadError (Sample.fetch_failed_with_fallback None)) = true.
Proof.
  destruct (error_panel_text (Sample.fetch_failed_with_fallback None)
              "Failed to load product" "Error: Request failed" eq_refl)
    as [(H & _) | (_ & H & _)]; [exact H | discriminate H].
Defined.

(** ** More on the product fetcher *)

Section FetcherSessions.
Import Fetcher FetcherSession.

(** X13. Two renders give [useSWR] the same non-null key only for the same
    identifier with fetching enabled: the results of two products never
    share a cache key; and the key is [null] exactly when the identifier
    is empty or fetching is disabled. *)
Theorem key_identifies_product productId enabled productId' enabled' url :
  (apiUrl productId enabled = Some url →
   apiUrl productId' enabled' = Some url →
   productId = productId' ∧ enabled = true ∧ enabled' = true) ∧
  (apiUrl productId enabled = None ↔ productId = "" ∨ enabled = false).
Proof.
  split.
  - unfold apiUrl.
    destruct enabled; [|discriminate]. destruct enabled'; [|discriminate].
    cbn [andb].
    destruct (truthy_str productId); [|discriminate].
    destruct (truthy_str productId'); [|discriminate].
    intros H H'. rewrite <- H in H'. injection H' as H'.
    change (productId' = productId) in H'. auto.
  - split; [|apply apiUrl_none].
    unfold apiUrl, truthy_str. destruct enabled; [|auto].
    destruct (String.eqb_spec productId ""); [auto|discriminate].
Qed.



(** The identifiers "p1", "p2" and "p1" again, each fetched before the
    next is rendered: two fetches for each of the first two changes, one
    for the return to the cached "p1". *)
Example renders_back_to_cached :
  renders [("p1", true, cold); ("p2", true, p1_cached);
           ("p1", true, p1_p2_cached)]
          unmounted
  = [ByKey "/api/listing-details?id=p1";
     ByRefresh "/api/listing-details?id=p1";
     ByKey "/api/listing-details?id=p2";
     ByRefresh "/api/listing-details?id=p2";
     ByRefresh "/api/listing-details?id=p1"].
Proof. reflexivity. Qed.

(** The same when the identifier returns to "p1" while the first request
    for it has not resolved. *)
Example renders_back_before_resolved :
  renders [("p1", true, cold); ("p2", true, p1_requested);
           ("p1", true, p1_requested)]
          unmounted
  = [ByKey "/api/listing-details?id=p1";
     ByRefresh "/api/listing-details?id=p1";
     ByKey "/api/listing-details?id=p2";
     ByRefresh "/api/listing-details?id=p2";
     ByRefresh "/api/listing-details?id=p1"].
Proof. reflexivity. Qed.

(** X15. Rendering twice in a row with the same props starts nothing more
    than rendering once, whatever the cache holds at either render:
    repeated renders do not refetch. *)
Theorem rerender_starts_nothing productId enabled cached cached'
    (props : list (string * bool * SwrCache)) inst :
  renders ((productId, enabled, cached) :: (productId, enabled, cached')
             :: props) inst
  = renders ((productId, enabled, cached) :: props) inst.
Proof.
  cbn [renders]. f_equal.
  assert ((useFetchProductById productId enabled cached'
             (useFetchProductById productId enabled cached inst).1).2 = [])
    as ->.
  { unfold useFetchProductById. cbn.
    unfold swr_on_render, effect_on_render.
    rewrite !bool_decide_eq_true_2 by reflexivity.
    destruct (apiUrl productId enabled); reflexivity. }
  reflexivity.
Qed.

(** X16. What the hook reports once the request has settled.  For every
    answer of the envelope shape [newProductData] is its [data] and there
    is no error.  For an answer that decodes but has no [data] property,
    the "not found" body for one, the hook reports neither data nor
    error. *)
Theorem settled_data (fetcher : string → Completion FetchResult)
    (url : string) (v : Json) :
  jsonFetcher fetcher url = Normal v →
  (is_envelope v = true →
   ∃ fields d, v = JObj fields ∧ lookup_field "data" fields = Some d
               ∧ settled (jsonFetcher fetcher url) = (Some d, None)) ∧
  (data_of (Some v) = None →
   settled (jsonFetcher fetcher url) = (None, None)).
Proof.
  intros ->. cbn [settled]. split.
  - unfold is_envelope. destruct v as [| | | | |fields]; try discriminate.
    destruct (lookup_field "data" fields) as [d|] eqn:Hd; [|discriminate].
    intros _. exists fields, d. cbn. rewrite Hd. auto.
  - intros ->. reflexivity.
Qed.

End FetcherSessions.

Lemma key_identifies_product_witness :
  "p1" = "p1" ∧ true = true ∧ true = true.
Proof.
  apply (proj1 (key_identifies_product "p1" true "p1" true
                  "/api/listing-details?id=p1")); reflexivity.
Defined.

Lemma settled_data_witness :
  FetcherSession.settled
    (Fetcher.jsonFetcher Fetcher.answers_not_found "/api/listing-details?id=p1")
  = (None, None).
Proof.
  apply (proj2 (settled_data Fetcher.answers_not_found
                  "/api/listing-details?id=p1" Fetcher.not_found_body
                  eq_refl)).
  reflexivity.
Defined.

(** ** More on the form view and the run of the handler *)

Section FormControls.
Import Modal Session.
Context {Product : Type}.
Implicit Types (i : RenderInput Product).

(** X17. In the rendered form the label of the submit button agrees with
    the state of the controls: the controls are disabled exactly when the
    label is "Uploading..." or "Updating...", and the label is
    "Uploading..." exactly when the image manager is uploading, also
    during a submission.  "Success!" is never shown on a disabled
    button. *)
Theorem label_agrees_with_controls i titleValue controlsDisabled label :
  render i = EditForm titleValue controlsDisabled label →
  (controlsDisabled = true ↔ label = LabelUploading ∨ label = LabelUpdating) ∧
  (label = LabelUploading ↔ r_isUploading i = true) ∧
  (label = LabelSuccess → controlsDisabled = false ∧ r_showSuccess i = true).
Proof.
  pose proof (error_panel_is_panel i) as Hpanel.
  unfold render.
  destruct (isOpen i); cbn [negb]; [|discriminate].
  destruct (isLoading i); [discriminate|].
  destruct (productData i), (r_formData i);
    try (destruct (error_panel i); cbn in Hpanel; discriminate).
  intros H. injection H as _ <- <-. unfold submit_label.
  destruct (r_isSubmitting i), (r_isUploading i), (r_showSuccess i); cbn;
    intuition congruence.
Qed.

End FormControls.

Lemma label_agrees_with_controls_witness :
  false = false
  ∧ Modal.r_showSuccess
      {| Modal.isOpen := true; Modal.product := Some Sample.lamp;
         Modal.externalLoading := None; Modal.externalError := None;
         Modal.newProductData := None; Modal.isLoadingProduct := false;
         Modal.errorProduct := None;
         Modal.r_formData := Some Sample.lamp; Modal.r_isSubmitting := false;
         Modal.r_isUploading := false; Modal.r_showSuccess := true |} = true.
Proof.
  apply (proj2 (proj2 (label_agrees_with_controls
    {| Modal.isOpen := true; Modal.product := Some Sample.lamp;
       Modal.externalLoading := None; Modal.externalError := None;
       Modal.newProductData := None; Modal.isLoadingProduct := false;
       Modal.errorProduct := None;
       Modal.r_formData := Some Sample.lamp; Modal.r_isSubmitting := false;
       Modal.r_isUploading := false; Modal.r_showSuccess := true |}
    "Lamp" false Modal.LabelSuccess eq_refl)) eq_refl).
Defined.

Lemma image_refs_ids_witness :
  Modal.image_id {| Modal.imageUrl := "b.jpg"; Modal.image_id := "image-1" |}
  = "image-1".
Proof.
  apply (proj2 (image_refs_ids ["a.jpg"; "b.jpg"]) 1%nat
           {| Modal.imageUrl := "b.jpg"; Modal.image_id := "image-1" |}
           eq_refl).
Defined.

Section HandlerRuns.
Import Modal Session.
Context {Images : Type}.
Implicit Types (env : Collaborators Images) (s : ModalState Images).

(** X18. A run of [handleSubmit] that passes the guard begins by marking
    the instance as submitting and reading the image URLs, reports exactly
    one outcome to the user, either the success toast or the error toast,
    and ends by clearing [isSubmitting], whichever way the [try] block was
    left. *)
Theorem submit_reports_once env id s :
  is_Some (formData s) → isSubmitting s = false →
  (∃ rest, (handleSubmit env id s).2
           = [EvPreventDefault; EvSetIsSubmitting true; EvGetImageUrls]
               ++ rest) ∧
  (count is_success (handleSubmit env id s).2
   + count is_error_toast (handleSubmit env id s).2 = 1)%nat ∧
  last (handleSubmit env id s).2 = Some (EvSetIsSubmitting false).
Proof.
  intros [fd0 Hfd0] Hsub0.
  destruct (handleSubmit_cases env id s)
    as [[Hrun Hc] | [(fd & e & Hfd & Hsub & Hurls & Hrun)
                   | (fd & urls & Hfd & Hsub & Hurls & Hrun)]];
    cbv zeta in Hrun; rewrite Hrun; cbn [fst snd].
  - destruct Hc; congruence.
  - split; [eexists; reflexivity|]. split; reflexivity.
  - destruct (onUpdate env (build_reqBody id fd urls)); cbn;
      (split; [eexists; reflexivity|]); split; reflexivity.
Qed.

End HandlerRuns.

Lemma submit_reports_once_witness :
  last (Modal.handleSubmit (Sample.collaborators (Normal []) (Normal ())) "p1"
          (Sample.ready Sample.lamp Sample.two_urls)).2
  = Some (Modal.EvSetIsSubmitting false).
Proof.
  apply (proj2 (proj2 (submit_reports_once
           (Sample.collaborators (Normal []) (Normal ())) "p1"
           (Sample.ready Sample.lamp Sample.two_urls)
           (ex_intro _ Sample.lamp eq_refl) eq_refl))).
Defined.
